(** * cuml.dask.datasets.regression: partition sizing, low-rank synthesis
      and regression dataset assembly

    A shallow embedding of [python/cuml/dask/datasets/regression.py].

    Conventions of the embedding.
    - Python [int]s are [Z].
    - A Python [float] produced by true division of two ints is the
      rational number ([Q]) that the IEEE 754 binary64 result denotes: the
      quotient rounded to the nearest number with 53 significant bits, ties
      to even, with [OverflowError] beyond the range of floats.  [int(x)]
      truncates toward zero.
    - Array entries (floating point numbers) are idealised as real numbers
      ([R]); array shapes are lists of naturals.
    - A raised exception is the [Raise] result; side effects performed
      before the exception survive it.
    - Memory is not modelled: an allocation succeeds. *)

From Stdlib Require Import String ZArith QArith List Lia Bool.
From Stdlib Require Import Reals Lra Permutation.
Import ListNotations.

Local Open Scope Z_scope.

(** ** Python results and exceptions *)

Inductive exn : Type :=
| ValueError
| ZeroDivisionError
| IndexError
| AttributeError
| OverflowError.

Inductive result (A : Type) : Type :=
| Ok (a : A)
| Raise (e : exn).

Arguments Ok {A} a.
Arguments Raise {A} e.

Class Monad (m : Type -> Type) : Type := {
  ret : forall {A : Type}, A -> m A;
  bind : forall {A B : Type}, m A -> (A -> m B) -> m B
}.

Declare Scope monad_scope.
Delimit Scope monad_scope with monad.

Notation "x <- c1 ;; c2" := (bind c1 (fun x => c2))
  (at level 61, c1 at next level, right associativity) : monad_scope.
Notation "c1 ;;; c2" := (bind c1 (fun _ => c2))
  (at level 61, right associativity) : monad_scope.

Local Open Scope monad_scope.

#[export] Instance Monad_result : Monad result := {
  ret := fun A a => Ok a;
  bind := fun A B c f => match c with Ok a => f a | Raise e => Raise e end
}.

(** ** Integer and float primitives of Python used by the module *)

Module Py.

(** The integer nearest to [n / d], for [0 <= n] and [0 < d]; of two
    nearest integers, the even one. *)
Definition round_half_even (n d : Z) : Z :=
  let f := n / d in
  let r := n mod d in
  if 2 * r <? d then f
  else if d <? 2 * r then f + 1
  else if Z.even f then f else f + 1.

(** [floor (log2 (n / d))], for [0 < n] and [0 < d]. *)
Definition ilog2 (n d : Z) : Z :=
  if d <=? n then Z.log2 (n / d) else - Z.log2_up ((d + n - 1) / n).

(** [a / b] on two ints: true division.  The result is the float nearest
    to the quotient (CPython rounds the exact quotient once, half to even):
    with [e] the exponent of the last of the 53 significant bits, at least
    [-1074], it is [m * 2^e] for the integer [m] nearest to
    [|a / b| / 2^e].  [ZeroDivisionError] on [b = 0]; [OverflowError] when
    the rounded quotient is beyond the largest float, that is, reaches
    [2^1024]. *)
Definition truediv (a b : Z) : result Q :=
  if b =? 0 then Raise ZeroDivisionError
  else if a =? 0 then Ok 0%Q
  else
    let n := Z.abs a in
    let d := Z.abs b in
    let e := Z.max (ilog2 n d - 52) (-1074) in
    let up := 2 ^ Z.max 0 e in
    let down := 2 ^ Z.max 0 (- e) in
    let m := round_half_even (n * down) (d * up) in
    if 2 ^ 1024 * down <=? m * up then Raise OverflowError
    else Ok (inject_Z (Z.sgn a * Z.sgn b * (m * up)) / inject_Z down)%Q.

(** [int(x)] on a (finite) float: truncation toward zero. *)
Definition int (x : Q) : Z := Z.quot (Qnum x) (Zpos (Qden x)).

(** [max(1, x)] with [x] a float: the first argument is kept unless the
    second is strictly larger. *)
Definition max_1 (x : Q) : Q := if Qlt_le_dec 1 x then x else 1%Q.

(** [a % b] on two ints: sign of the divisor, [ZeroDivisionError] on
    [b = 0]. *)
Definition mod_ (a b : Z) : result Z :=
  if b =? 0 then Raise ZeroDivisionError else Ok (a mod b).

(** [sum(l)] *)
Definition sum (l : list Z) : Z := fold_right Z.add 0 l.

End Py.

(** ** Partition sizing: [generate_chunks_for_qr]

    The function is local to [make_low_rank_matrix] and closes over
    nothing, so it is embedded at top level. *)

Definition generate_chunks_for_qr (total_size min_size n_parts : Z)
  : result (list Z) :=
  q <- Py.truediv total_size n_parts ;;
  let n_total_per_part := Z.max 1 (Py.int q) in
  let min_size :=
    if min_size <? n_total_per_part then n_total_per_part else min_size in
  q' <- Py.truediv total_size min_size ;;
  let n_partitions := Py.int (Py.max_1 q') in
  rest <- Py.mod_ total_size (n_partitions * min_size) ;;
  let chunks_list := repeat min_size (Z.to_nat (n_partitions - 1)) in
  let chunks_list := chunks_list ++ [min_size + rest] in
  ret chunks_list.

(** The effective minimum block size, in the words of the specification:
    [max(min_block_size, max(1, total_size // n_parts))]. *)
Definition effective_min (total_size min_block_size n_parts : Z) : Z :=
  Z.max min_block_size (Z.max 1 (total_size / n_parts)).

(** [2^53]: every integer below it in magnitude is a float, and the
    rounding of a quotient of such a numerator does not show in [int]. *)
Definition two_53 : Z := 9007199254740992.

(** ** Values accepted for [random_state]

    A Python object is seen by [create_rs_generator] only through the name
    of its type and, when instances expose one, the [__module__] of that
    type.  A Dask [RandomState] is a mutable object: the value is a reference
    into the store of stream states. *)

Inductive py_value : Type :=
| PyNone
| PyInt (z : Z)
| PyCupyRandomState (h : nat)
| PyDaskRandomState (r : nat)
| PyObject (module : option string) (type_name : string).

(** [random_state.__module__], when [hasattr(random_state, '__module__')]. *)
Definition py_module (v : py_value) : option string :=
  match v with
  | PyNone | PyInt _ => None
  | PyCupyRandomState _ => Some "cupy.random.generator"%string
  | PyDaskRandomState _ => Some "dask.array.random"%string
  | PyObject m _ => m
  end.

(** [type(random_state).__name__] *)
Definition py_type_name (v : py_value) : string :=
  match v with
  | PyNone => "NoneType"
  | PyInt _ => "int"
  | PyCupyRandomState _ => "RandomState"
  | PyDaskRandomState _ => "RandomState"
  | PyObject _ n => n
  end.

(** ** Arrays

    A two-dimensional Dask array is its shape metadata and its (lazy)
    entries, row by row; a one-dimensional array is the list of its entries.
    [ndarray] is an array of any rank, entries in row-major order: the form
    of what [da.squeeze] returns. *)

Record matrix : Type := Matrix {
  nrows : nat;
  ncols : nat;
  rows : list (list R)
}.

Definition vector : Type := list R.

Record ndarray : Type := NdArray {
  nd_shape : list nat;
  nd_data : list R
}.

Definition shape (a : matrix) : nat * nat := (nrows a, ncols a).

Definition tabulate (r c : nat) (f : nat -> nat -> R) : matrix :=
  Matrix r c (map (fun i => map (fun j => f i j) (seq 0 c)) (seq 0 r)).

(** Chunk layout requested for one axis: [-1] (the whole axis), [None]
    (keep), nothing (automatic), one block size, or an explicit tuple of
    block sizes. *)
Inductive chunk_spec : Type :=
| Whole
| Keep
| Auto
| Block (c : Z)
| Blocks (l : list Z).

Definition chunks : Type := (chunk_spec * chunk_spec)%type.

(** Nodes of the lazy computation graph. *)
Inductive node : Type :=
| NRandom
| NQr
| NRechunk
| NFromArray
| NMul
| NAdd
| NDot
| NGetitem
| NConcatenate
| NSqueeze.

(** ** The external collaborators

    The random number generators and the block QR factorisation are not part
    of the module.  They are an interface: [RS] is the internal position of
    a Dask [RandomState] stream, [World] the ambient state of the process
    (the operating system's entropy and NumPy's global generator).  A draw
    returns the entries of the array as a function of the position, and the
    advanced stream.  A stream seeded with an integer ([rs_seeded]) depends
    on the seed alone.
    [np_permutation_spec] is the contract of [numpy.random.permutation]. *)

Class Engine : Type := {
  RS : Type;
  World : Type;
  rs_seeded : Z -> RS;
  rs_unseeded : World -> RS * World;
  rs_wrapping : nat -> World -> RS * World;
  rs_standard_normal :
    RS -> nat * nat -> chunks -> string -> (nat -> nat -> R) * RS;
  rs_normal :
    RS -> R -> nat * nat -> string -> (nat -> nat -> R) * RS;
  linalg_qr_q : matrix -> nat -> nat -> R;
  linalg_qr_r : matrix -> nat -> nat -> R;
  np_permutation : World -> nat -> list nat * World;
  np_permutation_spec :
    forall w n, Permutation (fst (np_permutation w n)) (seq 0 n)
}.

(** ** State of the process and the monad of the module *)

Section Model.

Context {E : Engine}.

(** [streams] is the store of Dask [RandomState] objects, [next_ref] the
    next free reference, [graph] the nodes recorded so far. *)
Record state : Type := State {
  streams : nat -> RS;
  next_ref : nat;
  world : World;
  graph : list node
}.

Definition M (A : Type) : Type := state -> result A * state.

#[global] Instance Monad_M : Monad M := {
  ret := fun A a st => (Ok a, st);
  bind := fun A B c f st =>
    match c st with
    | (Ok a, st') => f a st'
    | (Raise e, st') => (Raise e, st')
    end
}.

Definition run {A : Type} (c : M A) (st : state) : result A * state := c st.

Definition raise {A : Type} (e : exn) : M A := fun st => (Raise e, st).

Definition lift {A : Type} (r : result A) : M A := fun st => (r, st).

Definition emit (n : node) : M unit :=
  fun st =>
    (Ok tt, State (streams st) (next_ref st) (world st) (graph st ++ [n])).

Definition upd (f : nat -> RS) (r : nat) (s : RS) : nat -> RS :=
  fun r' => if Nat.eqb r' r then s else f r'.

(** Allocation of a fresh Dask [RandomState] from what the process
    supplies. *)
Definition new_stream (init : World -> RS * World) : M py_value :=
  fun st =>
    let (s, w) := init (world st) in
    (Ok (PyDaskRandomState (next_ref st)),
     State (upd (streams st) (next_ref st) s) (S (next_ref st)) w (graph st)).

(** One draw from the stream behind reference [r]. *)
Definition draw (r : nat) (g : RS -> (nat -> nat -> R) * RS)
  : M (nat -> nat -> R) :=
  fun st =>
    let (f, s) := g (streams st r) in
    (Ok f, State (upd (streams st) r s) (next_ref st) (world st) (graph st)).

(** *** The array engine ([dask.array]) at the level of shapes and
    entries *)

(** A block layout is accepted for an axis of extent [d] when a single
    block size is positive (or [-1]), and when an explicit tuple has
    non-negative entries that add up to [d]. *)
Definition axis_ok (d : nat) (c : chunk_spec) : bool :=
  match c with
  | Whole | Keep | Auto => true
  | Block c => (1 <=? c) || (c =? -1)
  | Blocks l => forallb (fun x => 0 <=? x) l && (Py.sum l =? Z.of_nat d)
  end.

Definition check_chunks (sh : nat * nat) (ch : chunks) : M unit :=
  if axis_ok (fst sh) (fst ch) && axis_ok (snd sh) (snd ch)
  then ret tt else raise ValueError.

(** An extent given as a Python int: negative dimensions are refused. *)
Definition dim (z : Z) : M nat :=
  if z <? 0 then raise ValueError else ret (Z.to_nat z).

(** The largest integer seed, [2^32 - 1]. *)
Definition seed_max : Z := 4294967295.

(** [da.random.RandomState(seed=seed, RandomState=cp.random.RandomState)]:
    the constructor seeds a [numpy.random.RandomState], which refuses an
    integer outside [[0, 2^32 - 1]] with [ValueError]. *)
Definition dask_RandomState_seed (seed : py_value) : M py_value :=
  match seed with
  | PyInt z =>
      if (0 <=? z) && (z <=? seed_max)
      then new_stream (fun w => (rs_seeded z, w))
      else raise ValueError
  | _ => new_stream rs_unseeded
  end.

(** [da.random.RandomState(RandomState=instance)] *)
Definition dask_RandomState_wrap (instance : py_value) : M py_value :=
  new_stream (fun w =>
    match instance with
    | PyCupyRandomState h => rs_wrapping h w
    | _ => rs_unseeded w
    end).

(** [rs.standard_normal(size, chunks=ch, dtype=dtype)] *)
Definition standard_normal (rs : py_value) (size : Z * Z) (ch : chunks)
    (dtype : string) : M matrix :=
  match rs with
  | PyDaskRandomState r =>
      nr <- dim (fst size) ;;
      nc <- dim (snd size) ;;
      check_chunks (nr, nc) ch ;;;
      emit NRandom ;;;
      f <- draw r (fun s => rs_standard_normal s (nr, nc) ch dtype) ;;
      ret (tabulate nr nc f)
  | _ => raise AttributeError
  end.

(** [rs.normal(scale=scale, size=size, dtype=dtype)] *)
Definition normal (rs : py_value) (scale : R) (size : nat * nat)
    (dtype : string) : M matrix :=
  match rs with
  | PyDaskRandomState r =>
      emit NRandom ;;;
      f <- draw r (fun s => rs_normal s scale size dtype) ;;
      ret (tabulate (fst size) (snd size) f)
  | _ => raise AttributeError
  end.

(** [da.linalg.qr(a)]: the reduced factorisation, as [numpy.linalg.qr]
    computes it block by block; for an [m x n] array, [q] is
    [m x min(m, n)] and [r] is [min(m, n) x n].  (The columns of [q] are
    orthonormal vectors of length [m], so there are at most [m] of them.) *)
Definition linalg_qr (a : matrix) : M (matrix * matrix) :=
  emit NQr ;;;
  let k := Nat.min (nrows a) (ncols a) in
  ret (tabulate (nrows a) k (linalg_qr_q a),
       tabulate k (ncols a) (linalg_qr_r a)).

(** [a.rechunk(ch)]: a new layout of the same array. *)
Definition rechunk (a : matrix) (ch : chunks) : M matrix :=
  check_chunks (shape a) ch ;;;
  emit NRechunk ;;;
  ret a.

(** [da.from_array(l, chunks=(c,))] *)
Definition from_array (l : list R) (c : chunk_spec) : M vector :=
  if axis_ok (length l) c then emit NFromArray ;;; ret l
  else raise ValueError.

(** [u * s] for [u] of rank 2 and [s] of rank 1, with broadcasting on the
    last axis. *)
Definition mul_broadcast (u : matrix) (s : vector) : M matrix :=
  if Nat.eqb (ncols u) (length s) then
    emit NMul ;;;
    ret (Matrix (nrows u) (ncols u)
           (map (fun row => map (fun p => fst p * snd p)%R (combine row s))
                (rows u)))
  else if Nat.eqb (length s) 1 then
    emit NMul ;;;
    ret (Matrix (nrows u) (ncols u)
           (map (fun row => map (fun x => x * hd 0 s)%R row) (rows u)))
  else if Nat.eqb (ncols u) 1 then
    emit NMul ;;;
    ret (Matrix (nrows u) (length s)
           (map (fun row => map (fun y => hd 0 row * y)%R s) (rows u)))
  else raise ValueError.

(** [k * a] for a float [k] *)
Definition scalar_mul (k : R) (a : matrix) : M matrix :=
  emit NMul ;;;
  ret (Matrix (nrows a) (ncols a) (map (map (fun x => k * x)%R) (rows a))).

(** [a + b] for a float [b] *)
Definition add_scalar (a : matrix) (b : R) : M matrix :=
  emit NAdd ;;;
  ret (Matrix (nrows a) (ncols a) (map (map (fun x => x + b)%R) (rows a))).

(** [a + b] for two arrays of one shape *)
Definition add (a b : matrix) : M matrix :=
  if Nat.eqb (nrows a) (nrows b) && Nat.eqb (ncols a) (ncols b) then
    emit NAdd ;;;
    ret (Matrix (nrows a) (ncols a)
           (map (fun p => map (fun q => fst q + snd q)%R
                            (combine (fst p) (snd p)))
                (combine (rows a) (rows b))))
  else raise ValueError.

Definition column (j : nat) (b : matrix) : list R :=
  map (fun row => nth j row 0%R) (rows b).

Definition inner (x y : list R) : R :=
  fold_right Rplus 0%R (map (fun p => fst p * snd p)%R (combine x y)).

(** [da.dot(a, b)] *)
Definition dot (a b : matrix) : M matrix :=
  if Nat.eqb (ncols a) (nrows b) then
    emit NDot ;;;
    ret (Matrix (nrows a) (ncols b)
           (map (fun row => map (fun j => inner row (column j b))
                              (seq 0 (ncols b)))
                (rows a)))
  else raise ValueError.

(** The number of items selected by the slice [:k] on an axis of extent
    [d]. *)
Definition slice_stop (k : Z) (d : nat) : nat :=
  if 0 <=? k then Nat.min (Z.to_nat k) d
  else Z.to_nat (Z.of_nat d + k).

(** [a[:, :k]] *)
Definition getitem_cols_upto (a : matrix) (k : Z) : M matrix :=
  emit NGetitem ;;;
  let c := slice_stop k (ncols a) in
  ret (Matrix (nrows a) c (map (firstn c) (rows a))).

(** The rows of [a] selected by [idx], in the order of [idx]. *)
Definition take_rows (idx : list nat) (a : matrix) : matrix :=
  Matrix (length idx) (ncols a) (map (fun i => nth i (rows a) []) idx).

(** The columns of [a] selected by [idx], in the order of [idx]. *)
Definition take_cols (idx : list nat) (a : matrix) : matrix :=
  Matrix (nrows a) (length idx)
    (map (fun row => map (fun j => nth j row 0%R) idx) (rows a)).

(** [a[idx, :]] for an array of indices *)
Definition getitem_rows (a : matrix) (idx : list nat) : M matrix :=
  if forallb (fun i => Nat.ltb i (nrows a)) idx then
    emit NGetitem ;;;
    ret (take_rows idx a)
  else raise IndexError.

(** [a[:, idx]] for an array of indices *)
Definition getitem_cols (a : matrix) (idx : list nat) : M matrix :=
  if forallb (fun j => Nat.ltb j (ncols a)) idx then
    emit NGetitem ;;;
    ret (take_cols idx a)
  else raise IndexError.

(** [da.concatenate([a, b], axis=0)] *)
Definition concatenate (a b : matrix) : M matrix :=
  if Nat.eqb (ncols a) (ncols b) then
    emit NConcatenate ;;;
    ret (Matrix (nrows a + nrows b) (ncols a) (rows a ++ rows b))
  else raise ValueError.

(** The shape left by [squeeze]: every axis of extent one is dropped. *)
Definition squeeze_shape (sh : list nat) : list nat :=
  filter (fun d => negb (Nat.eqb d 1)) sh.

(** The array [a] without its axes of extent one: the entries are kept, in
    row-major order. *)
Definition squeezed (a : matrix) : ndarray :=
  NdArray (squeeze_shape [nrows a; ncols a]) (concat (rows a)).

(** [da.squeeze(a)] *)
Definition squeeze (a : matrix) : M ndarray :=
  emit NSqueeze ;;;
  ret (squeezed a).

(** [np.random.permutation(n)]: a permutation of [np.arange(n)] (empty for
    negative [n]), drawn from NumPy's global generator. *)
Definition np_random_permutation (n : Z) : M (list nat) :=
  fun st =>
    let (p, w) := np_permutation (world st) (Z.to_nat n) in
    (Ok p, State (streams st) (next_ref st) w (graph st)).

End Model.

(** ** The module *)

(** The parameters of [make_regression], under their Python names. *)
Record regression_args : Type := RegressionArgs {
  n_samples : Z;
  n_features : Z;
  n_informative : Z;
  n_targets : Z;
  bias : R;
  effective_rank : option R;
  tail_strength : R;
  noise : R;
  shuffle : bool;
  coef : bool;
  random_state : py_value;
  n_parts : Z;
  n_samples_per_part : option Z;
  order : string;
  dtype : string
}.

Section Regression.

Context {E : Engine}.

(** The string [rs_type] computed by [create_rs_generator] (lines 24-27). *)
Definition rs_type_of (random_state : py_value) : string :=
  match py_module random_state with
  | Some m => (m ++ "." ++ py_type_name random_state)%string
  | None => py_type_name random_state
  end.

(** [create_rs_generator] (lines 23-40) *)
Definition create_rs_generator (random_state : py_value) : M py_value :=
  let rs_type := rs_type_of random_state in
  if ((rs_type =? "NoneType") || (rs_type =? "int"))%string then
    dask_RandomState_seed random_state
  else if (rs_type =? "cupy.random.generator.RandomState")%string then
    dask_RandomState_wrap random_state
  else if (rs_type =? "dask.array.random.RandomState")%string then
    ret random_state
  else raise ValueError.

(** [cp.arange(n, dtype=cp.float64)] *)
Definition arange (n : Z) : list R := map INR (seq 0 (Z.to_nat n)).

(** The singular profile [local_s] (lines 109-115 of
    [make_low_rank_matrix]). *)
Definition singular_profile (n : Z) (effective_rank tail_strength : R)
  : list R :=
  let sing_ind := arange n in
  let tmp := map (fun x => x / effective_rank)%R sing_ind in
  let low_rank :=
    map (fun t => (1 - tail_strength) * exp (-1.0 * t ^ 2))%R tmp in
  let tail := map (fun t => tail_strength * exp (-0.1 * t))%R tmp in
  map (fun p => fst p + snd p)%R (combine low_rank tail).

(** [max(1, int(n_samples / n_parts))], the default of
    [n_samples_per_part]. *)
Definition default_samples_per_part (n_samples n_parts : Z) : M Z :=
  q <- lift (Py.truediv n_samples n_parts) ;;
  ret (Z.max 1 (Py.int q)).

(** [make_low_rank_matrix] (lines 43-120) *)
Definition make_low_rank_matrix (n_samples n_features : Z)
    (effective_rank tail_strength : R) (random_state : py_value)
    (n_parts : Z) (n_samples_per_part : option Z) (dtype : string)
  : M matrix :=
  rs <- create_rs_generator random_state ;;
  let n := Z.min n_samples n_features in
  ch1 <- lift (generate_chunks_for_qr n_samples n n_parts) ;;
  m1 <- standard_normal rs (n_samples, n) (Blocks ch1, Whole) dtype ;;
  qr1 <- linalg_qr m1 ;;
  let u := fst qr1 in
  ch2 <- lift (generate_chunks_for_qr n_features n n_parts) ;;
  m2 <- standard_normal rs (n, n_features) (Whole, Blocks ch2) dtype ;;
  qr2 <- linalg_qr m2 ;;
  let v := fst qr2 in
  n_samples_per_part <-
    match n_samples_per_part with
    | None => default_samples_per_part n_samples n_parts
    | Some c => ret c
    end ;;
  u <- rechunk u (Block n_samples_per_part, Whole) ;;
  v <- rechunk v (Block n_samples_per_part, Whole) ;;
  let local_s := singular_profile n effective_rank tail_strength in
  s <- from_array local_s (Block n_samples_per_part) ;;
  u <- mul_broadcast u s ;;
  dot u v.

(** The shuffle of [make_regression] (lines 240-246). *)
Definition shuffle_step (n_samples n_features : Z)
    (X y ground_truth : matrix) : M (matrix * matrix * matrix) :=
  samples_indices <- np_random_permutation n_samples ;;
  X <- getitem_rows X samples_indices ;;
  y <- getitem_rows y samples_indices ;;
  features_indices <- np_random_permutation n_features ;;
  X <- getitem_cols X features_indices ;;
  ground_truth <- getitem_rows ground_truth features_indices ;;
  ret (X, y, ground_truth).

(** The body of [make_regression] up to the shuffle (lines 191-236): the
    feature matrix [X], the targets [y] and the coefficients
    [ground_truth], all of rank two. *)
Definition assemble (a : regression_args) : M (matrix * matrix * matrix) :=
  let n_informative := Z.min (n_features a) (n_informative a) in
  rs <- create_rs_generator (random_state a) ;;
  n_samples_per_part <-
    match n_samples_per_part a with
    | None => default_samples_per_part (n_samples a) (n_parts a)
    | Some c => ret c
    end ;;
  let layout :=
    (Block n_samples_per_part,
     Blocks [n_informative; n_features a - n_informative]) in
  X <-
    match effective_rank a with
    | None =>
        standard_normal rs (n_samples a, n_features a) layout (dtype a)
    | Some effective_rank =>
        X <- make_low_rank_matrix (n_samples a) (n_features a)
               effective_rank (tail_strength a) rs (n_parts a) None
               (dtype a) ;;
        rechunk X layout
    end ;;
  g <- standard_normal rs (n_informative, n_targets a)
         (Block n_samples_per_part, Whole) (dtype a) ;;
  ground_truth <- scalar_mul 100.0 g ;;
  Xi <- getitem_cols_upto X n_informative ;;
  y <- dot Xi ground_truth ;;
  y <- add_scalar y (bias a) ;;
  X <- rechunk X (Keep, Whole) ;;
  ground_truth <-
    (if n_informative =? n_features a then ret ground_truth
     else
       z <- standard_normal rs (n_features a - n_informative, n_targets a)
              (Auto, Auto) (dtype a) ;;
       zeroes <- scalar_mul 0.0 z ;;
       ground_truth <- concatenate ground_truth zeroes ;;
       rechunk ground_truth (Whole, Whole)) ;;
  y <-
    (if Rlt_dec 0.0 (noise a) then
       nz <- normal rs (noise a) (shape y) (dtype a) ;;
       add y nz
     else ret y) ;;
  ret (X, y, ground_truth).

(** [make_regression] (lines 123-255): [assemble], then the shuffle and the
    shaping of the outputs (lines 238-255).  The result is [(X, y)], with
    the coefficients as a third component when [coef] is set. *)
Definition make_regression (a : regression_args)
  : M (matrix * ndarray * option ndarray) :=
  assembled <- assemble a ;;
  let X := fst (fst assembled) in
  let y := snd (fst assembled) in
  let ground_truth := snd assembled in
  shuffled <-
    (if shuffle a then shuffle_step (n_samples a) (n_features a) X y ground_truth
     else ret (X, y, ground_truth)) ;;
  let X := fst (fst shuffled) in
  let y := snd (fst shuffled) in
  let ground_truth := snd shuffled in
  y <- squeeze y ;;
  if coef a then
    ground_truth <- squeeze ground_truth ;;
    ret (X, y, Some ground_truth)
  else ret (X, y, None).

End Regression.

(** ** The kinds of [random_state]

    The four kinds the resolver accepts, and the names under which it
    recognises them. *)

Definition accepted_kind (v : py_value) : bool :=
  match v with
  | PyNone | PyInt _ | PyCupyRandomState _ | PyDaskRandomState _ => true
  | PyObject _ _ => false
  end.

Definition accepted_type_names : list string :=
  ["NoneType"; "int"; "cupy.random.generator.RandomState";
   "dask.array.random.RandomState"]%string.

(** An integer seed is one the generator accepts. *)
Definition seed_ok (v : py_value) : Prop :=
  match v with
  | PyInt z => 0 <= z <= seed_max
  | _ => True
  end.

(** ** Well-formed calls

    The inputs on which [make_low_rank_matrix] is meant to be called: positive
    extents below [2^53] and a positive part count, a random state of an
    accepted kind (an integer seed in range), and a positive block size (or
    [-1]) when one is given. *)

Definition samples_per_part_ok (o : option Z) : Prop :=
  match o with
  | None => True
  | Some c => 1 <= c \/ c = -1
  end.

Definition low_rank_valid (n_samples n_features : Z) (random_state : py_value)
    (n_parts : Z) (n_samples_per_part : option Z) : Prop :=
  1 <= n_samples < two_53 /\ 1 <= n_features < two_53 /\ 1 <= n_parts /\
  (accepted_kind random_state = true /\ seed_ok random_state) /\
  samples_per_part_ok n_samples_per_part.

(** The inputs on which [make_regression] is meant to be called: extents
    that are not negative, fewer than [2^53] samples, and a random state of
    an accepted kind (an integer seed in range).  With an effective rank the
    synthesiser is used, which needs positive extents and no more features
    than samples. *)
Definition regression_valid (a : regression_args) : Prop :=
  0 <= n_samples a < two_53 /\ 0 <= n_features a /\ 0 <= n_informative a /\
  0 <= n_targets a /\ n_parts a <> 0 /\
  (accepted_kind (random_state a) = true /\ seed_ok (random_state a)) /\
  samples_per_part_ok (n_samples_per_part a) /\
  (effective_rank a = None \/
   (1 <= n_features a <= n_samples a /\ 1 <= n_parts a)).

(** The entries of an array agree with its shape. *)
Definition well_formed (a : matrix) : Prop :=
  List.length (rows a) = nrows a /\
  Forall (fun row => List.length row = ncols a) (rows a).

(** What [assemble] returns, as a predicate on [(X, y, ground_truth)]: the
    entries agree with the shapes, the shapes are those of the parameters,
    and the coefficients from row [n_informative] on (in row-major order,
    from position [n_informative * n_targets]) are zero.  With an effective
    rank, [assemble] returns only when there are no more features than
    samples. *)
Definition assembled_post (a : regression_args)
    (pre : matrix * matrix * matrix) : Prop :=
  let ns := Z.to_nat (n_samples a) in
  let nf := Z.to_nat (n_features a) in
  let nt := Z.to_nat (n_targets a) in
  let ni := Z.to_nat (Z.min (n_features a) (n_informative a)) in
  0 <= n_samples a /\ 0 <= n_features a /\
  (effective_rank a <> None -> n_features a <= n_samples a) /\
  well_formed (fst (fst pre)) /\ shape (fst (fst pre)) = (ns, nf) /\
  well_formed (snd (fst pre)) /\ shape (snd (fst pre)) = (ns, nt) /\
  well_formed (snd pre) /\ shape (snd pre) = (nf, nt) /\
  skipn (ni * nt) (concat (rows (snd pre))) = repeat 0%R ((nf - ni) * nt).

(** What [make_regression] returns, as a predicate on the result
    [(X, y, coefficients)]: the shape of [X], with which its entries agree;
    the shape of [y], the matrix of [n_samples] by [n_targets] targets with
    every axis of extent one dropped; and, when coefficients are returned,
    their shape and, without shuffle, that the entries from row
    [n_informative] on are zero. *)
Definition regression_post (a : regression_args)
    (out : matrix * ndarray * option ndarray) : Prop :=
  let ns := Z.to_nat (n_samples a) in
  let nf := Z.to_nat (n_features a) in
  let nt := Z.to_nat (n_targets a) in
  let ni := Z.to_nat (Z.min (n_features a) (n_informative a)) in
  well_formed (fst (fst out)) /\
  shape (fst (fst out)) = (ns, nf) /\
  nd_shape (snd (fst out)) = squeeze_shape [ns; nt] /\
  List.length (nd_data (snd (fst out))) = (ns * nt)%nat /\
  match snd out with
  | None => coef a = false
  | Some g =>
      coef a = true /\
      nd_shape g = squeeze_shape [nf; nt] /\
      List.length (nd_data g) = (nf * nt)%nat /\
      (shuffle a = false ->
       skipn (ni * nt) (nd_data g) = repeat 0%R ((nf - ni) * nt))
  end.

(** ** Specifications

    [triple Qe c Q st]: running [c] from [st] either returns a value and a
    state satisfying [Q], or raises and then [Qe] holds.  With [Qe := False]
    this is total correctness, with [Qe := True] partial correctness. *)

Definition triple {E : Engine} {A : Type} (Qe : Prop) (c : M A)
    (Q : A -> state -> Prop) (st : state) : Prop :=
  match run c st with
  | (Ok a, st') => Q a st'
  | (Raise _, _) => Qe
  end.

(** Two states of the process hold the same stream, under reference [r1] in
    the first and [r2] in the second. *)
Definition same_stream {E : Engine} (r1 r2 : nat) (st1 st2 : state) : Prop :=
  streams st1 r1 = streams st2 r2.

(** [agree r1 r2 c1 c2]: run from two states that hold the same stream,
    [c1] and [c2] have the same outcome (the same value, or the same
    exception), and leave states that hold the same stream. *)
Definition agree {E : Engine} {A : Type} (r1 r2 : nat) (c1 c2 : M A) : Prop :=
  forall st1 st2,
    same_stream r1 r2 st1 st2 ->
    fst (run c1 st1) = fst (run c2 st2) /\
    same_stream r1 r2 (snd (run c1 st1)) (snd (run c2 st2)).

(** [oblivious c]: the outcome of [c] does not depend on the state of the
    process, and [c] leaves every stream as it was. *)
Definition oblivious {E : Engine} {A : Type} (c : M A) : Prop :=
  forall st st',
    fst (run c st) = fst (run c st') /\
    streams (snd (run c st)) = streams st.

(** ** Calls used as examples *)

(** The call with every parameter at its default, but for a seed. *)
Definition default_args (seed : Z) : regression_args := {|
  n_samples := 100;
  n_features := 100;
  n_informative := 10;
  n_targets := 1;
  bias := 0.0;
  effective_rank := None;
  tail_strength := 0.5;
  noise := 0.0;
  shuffle := false;
  coef := false;
  random_state := PyInt seed;
  n_parts := 1;
  n_samples_per_part := None;
  order := "F";
  dtype := "float32"
|}.

(** A well-conditioned problem of the given extents, with or without
    shuffle, coefficients requested, seed [0]. *)
Definition small_args (samples features informative targets : Z)
    (shuffled : bool) : regression_args := {|
  n_samples := samples;
  n_features := features;
  n_informative := informative;
  n_targets := targets;
  bias := 0.0;
  effective_rank := None;
  tail_strength := 0.5;
  noise := 0.0;
  shuffle := shuffled;
  coef := true;
  random_state := PyInt 0;
  n_parts := 1;
  n_samples_per_part := None;
  order := "F";
  dtype := "float32"
|}.

(** The same call with another [order]. *)
Definition with_order (o : string) (a : regression_args) : regression_args := {|
  n_samples := n_samples a;
  n_features := n_features a;
  n_informative := n_informative a;
  n_targets := n_targets a;
  bias := bias a;
  effective_rank := effective_rank a;
  tail_strength := tail_strength a;
  noise := noise a;
  shuffle := shuffle a;
  coef := coef a;
  random_state := random_state a;
  n_parts := n_parts a;
  n_samples_per_part := n_samples_per_part a;
  order := o;
  dtype := dtype a
|}.

(** The same call with another [random_state]. *)
Definition with_random_state (v : py_value) (a : regression_args)
  : regression_args := {|
  n_samples := n_samples a;
  n_features := n_features a;
  n_informative := n_informative a;
  n_targets := n_targets a;
  bias := bias a;
  effective_rank := effective_rank a;
  tail_strength := tail_strength a;
  noise := noise a;
  shuffle := shuffle a;
  coef := coef a;
  random_state := v;
  n_parts := n_parts a;
  n_samples_per_part := n_samples_per_part a;
  order := order a;
  dtype := dtype a
|}.

(** The same call with another [n_parts]. *)
Definition with_n_parts (p : Z) (a : regression_args) : regression_args := {|
  n_samples := n_samples a;
  n_features := n_features a;
  n_informative := n_informative a;
  n_targets := n_targets a;
  bias := bias a;
  effective_rank := effective_rank a;
  tail_strength := tail_strength a;
  noise := noise a;
  shuffle := shuffle a;
  coef := coef a;
  random_state := random_state a;
  n_parts := p;
  n_samples_per_part := n_samples_per_part a;
  order := order a;
  dtype := dtype a
|}.

(** The same call with another [effective_rank]. *)
Definition with_effective_rank (er : option R) (a : regression_args)
  : regression_args := {|
  n_samples := n_samples a;
  n_features := n_features a;
  n_informative := n_informative a;
  n_targets := n_targets a;
  bias := bias a;
  effective_rank := er;
  tail_strength := tail_strength a;
  noise := noise a;
  shuffle := shuffle a;
  coef := coef a;
  random_state := random_state a;
  n_parts := n_parts a;
  n_samples_per_part := n_samples_per_part a;
  order := order a;
  dtype := dtype a
|}.

(** ** Calls within the uses the libraries document

    The random states from which the array engine is known to draw: an
    absent one, an integer seed and a Dask [RandomState]. *)
Definition drawable (v : py_value) : Prop :=
  match v with
  | PyNone | PyInt _ | PyDaskRandomState _ => True
  | PyCupyRandomState _ | PyObject _ _ => False
  end.

(** The floating point types of the generators. *)
Definition float_dtype (dt : string) : Prop :=
  dt = "float32"%string \/ dt = "float64"%string.

(** A well-formed call of [make_regression] with a drawable random state, a
    floating point [dtype] and no empty extent. *)
Definition plain_regression (a : regression_args) : Prop :=
  regression_valid a /\
  drawable (random_state a) /\ float_dtype (dtype a) /\
  1 <= n_samples a /\ 1 <= n_features a /\
  1 <= n_informative a /\ 1 <= n_targets a.

(** ** The linear model

    The targets a linear model with coefficients [ground_truth] and bias
    [b] assigns to the samples of [X]: entry [j] of row [i] is the inner
    product of row [i] of [X] with column [j] of the coefficients, plus the
    bias. *)
Definition linear_targets (X ground_truth : matrix) (b : R) : list (list R) :=
  map (fun row =>
         map (fun j => (inner row (column j ground_truth) + b)%R)
           (seq 0 (ncols ground_truth)))
      (rows X).

(** [quiet c]: [c] leaves the ambient state of the process (the entropy of
    the operating system and NumPy's global generator) as it found it,
    whether it returns or raises. *)
Definition quiet {E : Engine} {A : Type} (c : M A) : Prop :=
  forall st, world (snd (run c st)) = world st.

(** ** A concrete engine

    A small deterministic instance of the interface, on which the module can
    be run: streams and the world are counters, a draw fills the array with
    consecutive numbers starting at the stream position, [q] of the
    factorisation is the leading columns of the identity, and a permutation
    rotates [0 .. n-1] by the position of the global generator. *)

Module Counter.

Definition rotation (w n : nat) : list nat :=
  skipn (w mod n) (seq 0 n) ++ firstn (w mod n) (seq 0 n).

Definition fill (s : Z) (c : nat) : nat -> nat -> R :=
  fun i j => IZR (s + Z.of_nat (i * c + j)).

Definition identity (i j : nat) : R :=
  if Nat.eqb i j then 1%R else 0%R.

Lemma rotation_permutation (w n : nat) :
  Permutation (fst (rotation w n, S w)) (seq 0 n).
Proof.
  unfold rotation. cbn [fst].
  rewrite Permutation_app_comm, firstn_skipn. apply Permutation_refl.
Qed.

Definition engine : Engine := {|
  RS := Z;
  World := nat;
  rs_seeded := fun z => z;
  rs_unseeded := fun w => (Z.of_nat w, S w);
  rs_wrapping := fun h w => (Z.of_nat (h + w), S w);
  rs_standard_normal := fun s sh _ _ => (fill s (snd sh), s + 1);
  rs_normal := fun s scale sh _ =>
    (fun i j => (scale * fill s (snd sh) i j)%R, s + 1);
  linalg_qr_q := fun _ => identity;
  linalg_qr_r := fun a i j => nth j (nth i (rows a) []) 0%R;
  np_permutation := fun w n => (rotation w n, S w);
  np_permutation_spec := rotation_permutation
|}.

(** A fresh process: no stream allocated, nothing recorded. *)
Definition initial : @state engine := State (E := engine) (fun _ => 0) 0%nat 0%nat [].

End Counter.

(** * Properties *)

(** ** Arithmetic of the Python primitives *)

Lemma int_truediv (a b : Z) :
  b <> 0 -> Py.int (inject_Z a / inject_Z b)%Q = Z.quot a b.
Proof.
  intros Hb. unfold Py.int, Qdiv, Qinv, inject_Z.
  destruct b as [|p|p]; [congruence| |]; cbn [Qnum Qden Qmult].
  - rewrite Z.mul_1_r, Pos.mul_1_l. reflexivity.
  - rewrite Pos.mul_1_l.
    replace (a * Z.neg 1) with (- a) by lia.
    change (Z.neg p) with (- Z.pos p).
    rewrite Z.quot_opp_l, Z.quot_opp_r by lia. reflexivity.
Qed.

(** *** Rounding to the nearest float *)

Lemma round_half_even_lower (n d : Z) :
  0 < d -> n / d <= Py.round_half_even n d.
Proof.
  intros Hd. unfold Py.round_half_even. cbv zeta.
  destruct (2 * (n mod d) <? d); [lia|].
  destruct (d <? 2 * (n mod d)); [lia|].
  destruct (Z.even (n / d)); lia.
Qed.

Lemma round_half_even_below (n d z : Z) :
  0 < d -> 2 * n < (2 * z - 1) * d -> Py.round_half_even n d <= z - 1.
Proof.
  intros Hd Hn. unfold Py.round_half_even. cbv zeta.
  pose proof (Z.div_mod n d ltac:(lia)) as Hdm.
  pose proof (Z.mod_pos_bound n d Hd) as Hr.
  assert (Hf : n / d <= z - 1) by nia.
  destruct (Z.ltb_spec (2 * (n mod d)) d) as [H1|H1]; [exact Hf|].
  assert (Hf' : n / d + 1 <= z - 1) by nia.
  destruct (d <? 2 * (n mod d)); [exact Hf'|].
  destruct (Z.even (n / d)); assumption.
Qed.

Lemma quot_sgn_abs (a b : Z) :
  b <> 0 -> Z.quot a b = Z.sgn a * Z.sgn b * (Z.abs a / Z.abs b).
Proof.
  intros Hb. rewrite <- (Z.quot_div_nonneg (Z.abs a) (Z.abs b)) by lia.
  destruct (Z_lt_le_dec a 0) as [Ha|Ha], (Z_lt_le_dec b 0) as [Hb'|Hb'].
  - rewrite (Z.abs_neq a), (Z.abs_neq b) by lia.
    rewrite Z.quot_opp_opp by lia.
    rewrite (Z.sgn_neg a), (Z.sgn_neg b) by lia. lia.
  - rewrite (Z.abs_neq a), (Z.abs_eq b) by lia.
    rewrite Z.quot_opp_l by lia.
    rewrite (Z.sgn_neg a), (Z.sgn_pos b) by lia. lia.
  - rewrite (Z.abs_eq a), (Z.abs_neq b) by lia.
    rewrite Z.quot_opp_r by lia.
    destruct (Z.eq_dec a 0) as [->|].
    + rewrite Z.quot_0_l by lia. lia.
    + rewrite (Z.sgn_pos a), (Z.sgn_neg b) by lia. lia.
  - rewrite (Z.abs_eq a), (Z.abs_eq b) by lia.
    destruct (Z.eq_dec a 0) as [->|].
    + rewrite Z.quot_0_l by lia. lia.
    + rewrite (Z.sgn_pos a), (Z.sgn_pos b) by lia. lia.
Qed.

Lemma quot_sgn_mul (s m d : Z) :
  0 <= m -> 0 < d -> (s = 1 \/ s = -1) -> Z.quot (s * m) d = s * (m / d).
Proof.
  intros Hm Hd [->| ->].
  - rewrite Z.mul_1_l, Z.quot_div_nonneg by lia. lia.
  - replace (-1 * m) with (- m) by lia.
    rewrite Z.quot_opp_l, Z.quot_div_nonneg by lia. lia.
Qed.

(** Below [2^53] the rounding of the quotient is invisible to [int]. *)
Lemma truediv_small (a b : Z) :
  b <> 0 -> Z.abs a < two_53 ->
  exists q, Py.truediv a b = Ok q /\ Py.int q = Z.quot a b.
Proof.
  intros Hb Ha. unfold Py.truediv.
  destruct (Z.eqb_spec b 0) as [|_]; [contradiction|].
  destruct (Z.eqb_spec a 0) as [->|Ha0].
  { exists 0%Q. split; [reflexivity|]. rewrite Z.quot_0_l by assumption. reflexivity. }
  cbv zeta.
  set (n := Z.abs a). set (d := Z.abs b).
  assert (Hn : 0 < n < two_53) by (subst n; lia).
  assert (Hd : 0 < d) by (subst d; lia).
  set (sg := Z.sgn a * Z.sgn b).
  assert (Hsg : sg = 1 \/ sg = -1) by (subst sg; lia).
  rewrite (quot_sgn_abs a b Hb). fold n d sg.
  set (e := Z.max (Py.ilog2 n d - 52) (-1074)).
  assert (He : e <= 0 /\
               (d <= n -> exists L, 0 <= L <= 52 /\ e = L - 52 /\
                                    2 ^ L <= n / d) /\
               (n < d -> e <= -53)).
  { subst e. unfold Py.ilog2.
    destruct (Z.leb_spec d n) as [Hle|Hlt].
    - assert (Hk : 1 <= n / d) by (apply Z.div_le_lower_bound; lia).
      assert (Hk2 : n / d < 2 ^ 53).
      { apply Z.div_lt_upper_bound; [lia|]. unfold two_53 in Hn.
        change (2 ^ 53) with 9007199254740992. nia. }
      pose proof (Z.log2_spec (n / d) ltac:(lia)) as [Hl1 Hl2].
      pose proof (Z.log2_nonneg (n / d)) as Hl0.
      assert (Hl : Z.log2 (n / d) <= 52).
      { assert (Z.log2 (n / d) < 53); [|lia].
        apply Z.log2_lt_pow2; lia. }
      split; [lia|]. split; [|lia].
      intros _. exists (Z.log2 (n / d)). split; [lia|]. split; [lia | exact Hl1].
    - assert (Hc : 1 < (d + n - 1) / n).
      { assert (2 <= (d + n - 1) / n); [|lia].
        apply Z.div_le_lower_bound; lia. }
      pose proof (Z.log2_up_pos _ Hc). split; [lia|]. split; lia. }
  destruct He as (He0 & Hge & Hlt).
  rewrite (Z.max_l 0 e) by lia. rewrite (Z.max_r 0 (- e)) by lia.
  change (2 ^ 0) with 1. rewrite !Z.mul_1_r.
  set (S := 2 ^ (- e)).
  assert (HS : 0 < S) by (subst S; apply Z.pow_pos_nonneg; lia).
  set (m := Py.round_half_even (n * S) d).
  pose proof (round_half_even_lower (n * S) d Hd) as Hlow. fold m in Hlow.
  assert (Hm : n / d * S <= m <= (n / d + 1) * S - 1).
  { pose proof (Z.div_mod n d ltac:(lia)) as Hdm.
    pose proof (Z.mod_pos_bound n d Hd) as Hr.
    split.
    - apply Z.le_trans with (n * S / d); [|exact Hlow].
      apply Z.div_le_lower_bound; [lia|]. nia.
    - replace ((n / d + 1) * S - 1) with ((n / d + 1) * S - 1) by reflexivity.
      apply round_half_even_below; [exact Hd|].
      destruct (Z_lt_le_dec n d) as [Hnd|Hnd].
      + specialize (Hlt Hnd).
        assert (Hq : n / d = 0) by (apply Z.div_small; lia).
        rewrite Hq.
        assert (HS53 : two_53 <= S).
        { subst S. unfold two_53. change 9007199254740992 with (2 ^ 53).
          apply Z.pow_le_mono_r; lia. }
        destruct (Z_lt_le_dec d (2 * S)); nia.
      + destruct (Hge Hnd) as (L & HL & HeL & HkL).
        assert (H53 : 2 ^ L * (2 * S) = two_53).
        { subst S. rewrite HeL.
          replace (- (L - 52)) with (52 - L) by lia.
          replace (2 * 2 ^ (52 - L)) with (2 ^ (53 - L)).
          - rewrite <- Z.pow_add_r by lia.
            replace (L + (53 - L)) with 53 by lia. reflexivity.
          - replace (53 - L) with (Z.succ (52 - L)) by lia.
            rewrite Z.pow_succ_r by lia. reflexivity. }
        assert (H2L : 0 < 2 ^ L) by (apply Z.pow_pos_nonneg; lia).
        assert (Hd2S : d < 2 * S) by nia.
        nia. }
  assert (Hk0 : 0 <= n / d) by (apply Z.div_pos; lia).
  destruct (Z.leb_spec (2 ^ 1024 * S) m) as [Hov|_].
  { exfalso.
    assert (n / d + 1 <= 2 ^ 1024).
    { assert (n / d <= n) by (apply Z.div_le_upper_bound; nia).
      assert (two_53 <= 2 ^ 1024).
      { unfold two_53. change 9007199254740992 with (2 ^ 53).
        apply Z.pow_le_mono_r; lia. }
      lia. }
    nia. }
  eexists. split; [reflexivity|].
  rewrite int_truediv by lia.
  rewrite quot_sgn_mul by (try assumption; lia).
  f_equal. symmetry. apply (Z.div_unique m S (n / d) (m - n / d * S)); lia.
Qed.

Lemma int_max_1 (x : Q) : Py.int (Py.max_1 x) = Z.max 1 (Py.int x).
Proof.
  unfold Py.max_1, Py.int. destruct x as [n d].
  destruct (Qlt_le_dec 1 (n # d)) as [H|H]; unfold Qlt, Qle in H;
    cbn [Qnum Qden] in *.
  - assert (1 <= Z.quot n (Z.pos d)).
    { rewrite Z.quot_div_nonneg by lia. apply Z.div_le_lower_bound; lia. }
    lia.
  - assert (Z.quot n (Z.pos d) <= 1).
    { destruct (Z_lt_le_dec n 0).
      - pose proof (Z.quot_opp_l n (Z.pos d) ltac:(lia)).
        assert (0 <= Z.quot (- n) (Z.pos d)) by (apply Z.quot_pos; lia). lia.
      - rewrite Z.quot_div_nonneg by lia.
        destruct (Z.eq_dec n (Z.pos d)) as [->|].
        + rewrite Z.div_same by lia. lia.
        + rewrite Z.div_small by lia. lia. }
    cbn. lia.
Qed.

Lemma max_1_quot_div (a b : Z) :
  0 <= a -> b <> 0 -> Z.max 1 (Z.quot a b) = Z.max 1 (a / b).
Proof.
  intros Ha Hb. destruct (Z_lt_le_dec 0 b) as [Hpos | Hneg].
  - rewrite Z.quot_div_nonneg by lia. reflexivity.
  - assert (Hq : Z.quot a b <= 0).
    { replace b with (- - b) by lia. rewrite Z.quot_opp_r by lia.
      assert (0 <= Z.quot a (- b)) by (apply Z.quot_pos; lia). lia. }
    assert (Hd : a / b <= 0).
    { pose proof (Z.div_mod a b Hb) as Hdm.
      pose proof (Z.mod_neg_bound a b ltac:(lia)) as Hr.
      nia. }
    lia.
Qed.

(** ** Partition sizing *)

Lemma sum_app (l1 l2 : list Z) : Py.sum (l1 ++ l2) = Py.sum l1 + Py.sum l2.
Proof.
  unfold Py.sum. induction l1 as [|x l1 IH]; cbn; [reflexivity | rewrite IH; lia].
Qed.

Lemma sum_repeat (x : Z) (k : nat) : Py.sum (repeat x k) = Z.of_nat k * x.
Proof.
  unfold Py.sum. induction k as [|k IH]; [reflexivity|].
  cbn [repeat fold_right]. rewrite IH. lia.
Qed.

(** The function in closed form: one effective minimum [e], a part count
    [k], and the last block carrying the remainder. *)
Lemma generate_chunks_for_qr_eq (total_size min_size n_parts : Z) :
  n_parts <> 0 -> Z.abs total_size < two_53 ->
  let e := Z.max min_size (Z.max 1 (Z.quot total_size n_parts)) in
  let k := Z.max 1 (Z.quot total_size e) in
  generate_chunks_for_qr total_size min_size n_parts =
  Ok (repeat e (Z.to_nat (k - 1)) ++ [e + total_size mod (k * e)]).
Proof.
  intros Hp Hsmall e k. unfold generate_chunks_for_qr.
  destruct (truediv_small total_size n_parts Hp Hsmall) as (q & -> & Hq).
  cbn [bind Monad_result]. rewrite Hq.
  set (tpp := Z.max 1 (Z.quot total_size n_parts)).
  assert (He : (if min_size <? tpp then tpp else min_size) = e).
  { subst e. fold tpp. destruct (Z.ltb_spec min_size tpp); lia. }
  rewrite He. assert (0 < e) by (subst e tpp; lia).
  destruct (truediv_small total_size e ltac:(lia) Hsmall) as (q' & -> & Hq').
  cbn [bind Monad_result].
  rewrite int_max_1, Hq'. fold k.
  unfold Py.mod_. destruct (Z.eqb_spec (k * e) 0) as [H0|_]; [subst k; nia|].
  reflexivity.
Qed.

(** In the regular case the blocks are [total_size / e - 1] copies of the
    effective minimum [e] and a last block [e + total_size mod e]. *)
Lemma generate_chunks_for_qr_regular (total_size min_block_size n_parts : Z) :
  1 <= total_size < two_53 -> 1 <= n_parts -> min_block_size <= total_size ->
  let e := effective_min total_size min_block_size n_parts in
  generate_chunks_for_qr total_size min_block_size n_parts =
    Ok (repeat e (Z.to_nat (total_size / e - 1)) ++ [e + total_size mod e]) /\
  1 <= e <= total_size /\ 1 <= total_size / e.
Proof.
  intros HT Hp Hm e.
  rewrite generate_chunks_for_qr_eq by lia. cbv zeta.
  rewrite max_1_quot_div by lia.
  fold (effective_min total_size min_block_size n_parts). fold e.
  assert (He : 1 <= e <= total_size).
  { subst e. unfold effective_min.
    assert (total_size / n_parts <= total_size).
    { apply Z.div_le_upper_bound; nia. }
    lia. }
  assert (Hk : 1 <= total_size / e).
  { apply Z.div_le_lower_bound; lia. }
  rewrite Z.quot_div_nonneg by lia.
  rewrite Z.max_r by lia.
  assert (Hrest : total_size mod (total_size / e * e) = total_size mod e).
  { pose proof (Z.div_mod total_size e ltac:(lia)) as Hdm.
    pose proof (Z.mod_pos_bound total_size e ltac:(lia)) as Hr.
    symmetry. apply (Z.mod_unique_pos total_size (total_size / e * e) 1); nia. }
  rewrite Hrest. repeat split; lia.
Qed.

(** The layout returned in the regular case is one the array engine accepts
    for an axis of extent [total_size]. *)
Lemma generate_chunks_for_qr_layout (total_size min_block_size n_parts : Z) :
  1 <= total_size < two_53 -> 1 <= n_parts -> min_block_size <= total_size ->
  exists chunks,
    generate_chunks_for_qr total_size min_block_size n_parts = Ok chunks /\
    forallb (fun x => 0 <=? x) chunks = true /\
    Py.sum chunks = total_size.
Proof.
  intros HT Hp Hm.
  destruct (generate_chunks_for_qr_regular _ _ _ HT Hp Hm) as (Heq & He & Hk).
  cbv zeta in *. set (e := effective_min total_size min_block_size n_parts) in *.
  eexists. split; [exact Heq|]. split.
  - apply forallb_forall. intros x Hx. apply Z.leb_le.
    apply in_app_or in Hx. destruct Hx as [Hx|[Hx|[]]].
    + apply repeat_spec in Hx. lia.
    + pose proof (Z.mod_pos_bound total_size e ltac:(lia)). lia.
  - rewrite sum_app, sum_repeat, Z2Nat.id by lia. cbn.
    pose proof (Z.div_mod total_size e ltac:(lia)). lia.
Qed.







(** The concrete scenario of the specification. *)
Example generate_chunks_for_qr_100_30_3 :
  generate_chunks_for_qr 100 30 3 = Ok [33; 33; 34].
Proof. vm_compute. reflexivity. Qed.

(** ** The singular profile *)

Lemma combine_map_same {A B C : Type} (f : A -> B) (g : A -> C) (l : list A) :
  combine (map f l) (map g l) = map (fun x => (f x, g x)) l.
Proof.
  induction l as [|x l IH]; cbn; [reflexivity | rewrite IH; reflexivity].
Qed.

Lemma singular_profile_eq (n : Z) (effective_rank tail_strength : R) :
  singular_profile n effective_rank tail_strength =
  map (fun k : nat =>
         (1 - tail_strength) * exp (-1.0 * (INR k / effective_rank) ^ 2) +
         tail_strength * exp (-0.1 * (INR k / effective_rank)))%R
      (seq 0 (Z.to_nat n)).
Proof.
  unfold singular_profile, arange.
  rewrite combine_map_same, !map_map. reflexivity.
Qed.

(** C8. For every index [i] in [[0, n)], entry [i] of the singular profile
    is [(1 - tail_strength) * exp(-(i/effective_rank)^2) +
    tail_strength * exp(-0.1 * (i/effective_rank))], and it is non-negative
    whenever [effective_rank > 0] and [tail_strength] is in [[0, 1]]; the
    profile has [n] entries.  (The argument uses only that [exp] is positive,
    that [1 - tail_strength] is non-negative, and that products and sums of
    non-negative numbers are non-negative.) *)
Theorem singular_profile_nonneg (n : Z) (effective_rank tail_strength : R) (i : nat) :
  (0 < effective_rank)%R ->
  (0 <= tail_strength <= 1)%R ->
  (i < Z.to_nat n)%nat ->
  let t := (INR i / effective_rank)%R in
  let s_i := ((1 - tail_strength) * exp (- t ^ 2) +
              tail_strength * exp (- (0.1 * t)))%R in
  List.length (singular_profile n effective_rank tail_strength) = Z.to_nat n /\
  nth_error (singular_profile n effective_rank tail_strength) i = Some s_i /\
  (0 <= s_i)%R.
Proof.
  intros Her Hts Hi t s_i.
  rewrite singular_profile_eq. split; [|split].
  - rewrite length_map, length_seq. reflexivity.
  - rewrite nth_error_map, nth_error_seq.
    destruct (Nat.ltb_spec i (Z.to_nat n)) as [_|Hge]; [|lia].
    cbn [option_map Nat.add]. f_equal. subst s_i t.
    f_equal; f_equal; f_equal; lra.
  - subst s_i.
    pose proof (exp_pos (- t ^ 2)) as H1.
    pose proof (exp_pos (- (0.1 * t))) as H2.
    apply Rplus_le_le_0_compat; apply Rmult_le_pos; lra.
Qed.

Lemma singular_profile_nonneg_witness :
  List.length (singular_profile 3 10 0.5) = Z.to_nat 3 /\
  nth_error (singular_profile 3 10 0.5) 2 =
    Some ((1 - 0.5) * exp (- (INR 2 / 10) ^ 2) +
          0.5 * exp (- (0.1 * (INR 2 / 10))))%R /\
  (0 <= (1 - 0.5) * exp (- (INR 2 / 10) ^ 2) +
        0.5 * exp (- (0.1 * (INR 2 / 10))))%R.
Proof.
  apply (singular_profile_nonneg 3 10 0.5 2); [lra | lra | cbn; lia].
Defined.

(** ** A program logic for the monad *)

Section Logic.

Context {E : Engine}.

Lemma triple_returns {A : Type} (Qe : Prop) (c : M A) Q st a st' :
  triple Qe c Q st -> run c st = (Ok a, st') -> Q a st'.
Proof. unfold triple. intros H Hr. rewrite Hr in H. exact H. Qed.

Lemma triple_total {A : Type} (c : M A) Q st :
  triple False c Q st -> exists a st', run c st = (Ok a, st') /\ Q a st'.
Proof.
  unfold triple. destruct (run c st) as [[a|e] st']; [|contradiction].
  intros H. exists a, st'. split; [reflexivity | exact H].
Qed.

Lemma triple_conseq {A : Type} (Qe : Prop) (c : M A) (Q Q' : A -> state -> Prop) st :
  (forall a st', Q a st' -> Q' a st') -> triple Qe c Q st -> triple Qe c Q' st.
Proof.
  unfold triple. intros HQ. destruct (run c st) as [[a|e] st']; auto.
Qed.

Lemma triple_ret {A : Type} (Qe : Prop) (a : A) Q st :
  Q a st -> triple Qe (ret a) Q st.
Proof. intros H. exact H. Qed.

Lemma triple_bind {A B : Type} (Qe : Prop) (c : M A) (f : A -> M B) Q st :
  triple Qe c (fun a st' => triple Qe (f a) Q st') st ->
  triple Qe (bind c f) Q st.
Proof.
  unfold triple, run. cbn [bind Monad_M].
  destruct (c st) as [[a|e] st']; auto.
Qed.

Lemma triple_raise {A : Type} (Qe : Prop) (e : exn) (Q : A -> state -> Prop) st :
  Qe -> triple Qe (raise e) Q st.
Proof. intros H. exact H. Qed.

Lemma triple_lift {A : Type} (Qe : Prop) (r : result A) Q st :
  (forall a, r = Ok a -> Q a st) ->
  (forall e, r = Raise e -> Qe) ->
  triple Qe (lift r) Q st.
Proof.
  unfold triple, run, lift. destruct r as [a|e]; intros H1 H2; eauto.
Qed.

Lemma triple_guard {A : Type} (Qe : Prop) (b : bool) (c : M A) (e : exn) Q st :
  (b = true -> triple Qe c Q st) ->
  (b = false -> Qe) ->
  triple Qe (if b then c else raise e) Q st.
Proof.
  destruct b; intros H1 H2; [apply H1 | apply triple_raise, H2]; reflexivity.
Qed.

Lemma triple_emit (Qe : Prop) (n : node) (Q : unit -> state -> Prop) st :
  (forall st', Q tt st') -> triple Qe (emit n) Q st.
Proof. intros H. apply H. Qed.

Lemma triple_emit_ret {A : Type} (Qe : Prop) (n : node) (a : A) Q st :
  (forall st', Q a st') -> triple Qe (emit n ;;; ret a) Q st.
Proof. intros H. apply H. Qed.

End Logic.

(** ** Specifications of the engine's operations *)

Section Operations.

Context {E : Engine}.

Lemma triple_dim (Qe : Prop) (z : Z) (Q : nat -> state -> Prop) st :
  (0 <= z -> Q (Z.to_nat z) st) ->
  (z < 0 -> Qe) ->
  triple Qe (dim z) Q st.
Proof.
  unfold dim. intros H1 H2.
  destruct (Z.ltb_spec z 0); [apply triple_raise | apply triple_ret]; auto.
Qed.

Lemma triple_check_chunks (Qe : Prop) sh ch (Q : unit -> state -> Prop) st :
  (axis_ok (fst sh) (fst ch) = true -> axis_ok (snd sh) (snd ch) = true ->
   Q tt st) ->
  (axis_ok (fst sh) (fst ch) && axis_ok (snd sh) (snd ch) = false -> Qe) ->
  triple Qe (check_chunks sh ch) Q st.
Proof.
  unfold check_chunks. intros H1 H2.
  apply triple_guard; [|assumption].
  intros Hb. apply andb_prop in Hb. destruct Hb. apply triple_ret. auto.
Qed.

Lemma triple_draw (Qe : Prop) r g (Q : (nat -> nat -> R) -> state -> Prop) st :
  (forall f st', Q f st') -> triple Qe (draw r g) Q st.
Proof.
  intros H. unfold triple, run, draw. destruct (g (streams st r)). apply H.
Qed.

Lemma triple_standard_normal (Qe : Prop) rs size ch dt Q st :
  (forall r f st',
      rs = PyDaskRandomState r ->
      0 <= fst size -> 0 <= snd size ->
      axis_ok (Z.to_nat (fst size)) (fst ch) = true ->
      axis_ok (Z.to_nat (snd size)) (snd ch) = true ->
      Q (tabulate (Z.to_nat (fst size)) (Z.to_nat (snd size)) f) st') ->
  ((forall r, rs <> PyDaskRandomState r) \/ fst size < 0 \/ snd size < 0 \/
   axis_ok (Z.to_nat (fst size)) (fst ch) &&
   axis_ok (Z.to_nat (snd size)) (snd ch) = false -> Qe) ->
  triple Qe (standard_normal rs size ch dt) Q st.
Proof.
  intros HQ He. unfold standard_normal.
  destruct rs as [| | |r|];
    try (apply triple_raise, He; left; intros; discriminate).
  apply triple_bind, triple_dim; [intros H1 | intros; apply He; auto].
  apply triple_bind, triple_dim; [intros H2 | intros; apply He; auto].
  apply triple_bind, triple_check_chunks; cbn [fst snd];
    [intros H3 H4 | intros; apply He; auto].
  apply triple_bind, triple_emit. intros st1.
  apply triple_bind, triple_draw. intros f st2.
  apply triple_ret. eapply HQ; eauto.
Qed.

Lemma triple_normal (Qe : Prop) rs scale size dt Q st :
  (forall r f st',
      rs = PyDaskRandomState r -> Q (tabulate (fst size) (snd size) f) st') ->
  ((forall r, rs <> PyDaskRandomState r) -> Qe) ->
  triple Qe (normal rs scale size dt) Q st.
Proof.
  intros HQ He. unfold normal.
  destruct rs as [| | |r|];
    try (apply triple_raise, He; intros; discriminate).
  apply triple_bind, triple_emit. intros st1.
  apply triple_bind, triple_draw. intros f st2.
  apply triple_ret. eapply HQ; eauto.
Qed.

Lemma triple_linalg_qr (Qe : Prop) a Q st :
  (forall st',
      Q (tabulate (nrows a) (Nat.min (nrows a) (ncols a)) (linalg_qr_q a),
         tabulate (Nat.min (nrows a) (ncols a)) (ncols a) (linalg_qr_r a))
        st') ->
  triple Qe (linalg_qr a) Q st.
Proof. intros H. unfold linalg_qr. apply triple_emit_ret, H. Qed.

Lemma triple_rechunk (Qe : Prop) a ch Q st :
  (axis_ok (nrows a) (fst ch) = true -> axis_ok (ncols a) (snd ch) = true ->
   forall st', Q a st') ->
  (axis_ok (nrows a) (fst ch) && axis_ok (ncols a) (snd ch) = false -> Qe) ->
  triple Qe (rechunk a ch) Q st.
Proof.
  intros HQ He. unfold rechunk.
  apply triple_bind, triple_check_chunks; cbn [shape fst snd]; [|assumption].
  intros H1 H2. apply triple_emit_ret. auto.
Qed.

Lemma triple_from_array (Qe : Prop) l c Q st :
  (axis_ok (List.length l) c = true -> forall st', Q l st') ->
  (axis_ok (List.length l) c = false -> Qe) ->
  triple Qe (from_array l c) Q st.
Proof.
  intros HQ He. unfold from_array. apply triple_guard; [|assumption].
  intros H. apply triple_emit_ret. auto.
Qed.

Lemma triple_mul_broadcast_eq (Qe : Prop) u s Q st :
  ncols u = List.length s ->
  (forall st',
      Q (Matrix (nrows u) (ncols u)
           (map (fun row => map (fun p => fst p * snd p)%R (combine row s))
              (rows u))) st') ->
  triple Qe (mul_broadcast u s) Q st.
Proof.
  intros Hn HQ. unfold mul_broadcast.
  rewrite (proj2 (Nat.eqb_eq _ _) Hn). apply triple_emit_ret, HQ.
Qed.

Lemma triple_scalar_mul (Qe : Prop) k a Q st :
  (forall st',
      Q (Matrix (nrows a) (ncols a) (map (map (fun x => k * x)%R) (rows a)))
        st') ->
  triple Qe (scalar_mul k a) Q st.
Proof. intros H. unfold scalar_mul. apply triple_emit_ret, H. Qed.

Lemma triple_add_scalar (Qe : Prop) a b Q st :
  (forall st',
      Q (Matrix (nrows a) (ncols a) (map (map (fun x => x + b)%R) (rows a)))
        st') ->
  triple Qe (add_scalar a b) Q st.
Proof. intros H. unfold add_scalar. apply triple_emit_ret, H. Qed.

Lemma triple_add (Qe : Prop) a b Q st :
  (nrows a = nrows b -> ncols a = ncols b ->
   forall st',
     Q (Matrix (nrows a) (ncols a)
          (map (fun p => map (fun q => fst q + snd q)%R
                           (combine (fst p) (snd p)))
             (combine (rows a) (rows b)))) st') ->
  (nrows a <> nrows b \/ ncols a <> ncols b -> Qe) ->
  triple Qe (add a b) Q st.
Proof.
  intros HQ He. unfold add. apply triple_guard.
  - intros H. apply andb_prop in H. destruct H as [H1 H2].
    apply Nat.eqb_eq in H1, H2. apply triple_emit_ret. auto.
  - intros H. apply andb_false_iff in H. apply He.
    destruct H as [H|H]; apply Nat.eqb_neq in H; auto.
Qed.

Lemma triple_dot (Qe : Prop) a b Q st :
  (ncols a = nrows b ->
   forall st',
     Q (Matrix (nrows a) (ncols b)
          (map (fun row => map (fun j => inner row (column j b))
                             (seq 0 (ncols b)))
             (rows a))) st') ->
  (ncols a <> nrows b -> Qe) ->
  triple Qe (dot a b) Q st.
Proof.
  intros HQ He. unfold dot. apply triple_guard.
  - intros H. apply Nat.eqb_eq in H. apply triple_emit_ret. auto.
  - intros H. apply Nat.eqb_neq in H. auto.
Qed.

Lemma triple_getitem_cols_upto (Qe : Prop) a k Q st :
  (forall st',
      Q (Matrix (nrows a) (slice_stop k (ncols a))
           (map (firstn (slice_stop k (ncols a))) (rows a))) st') ->
  triple Qe (getitem_cols_upto a k) Q st.
Proof. intros H. unfold getitem_cols_upto. apply triple_emit_ret, H. Qed.

Lemma triple_getitem_rows (Qe : Prop) a idx Q st :
  (Forall (fun i => (i < nrows a)%nat) idx ->
   forall st', Q (take_rows idx a) st') ->
  (~ Forall (fun i => (i < nrows a)%nat) idx -> Qe) ->
  triple Qe (getitem_rows a idx) Q st.
Proof.
  intros HQ He. unfold getitem_rows. apply triple_guard.
  - intros H. apply triple_emit_ret. apply HQ.
    apply Forall_forall. intros i Hi.
    rewrite forallb_forall in H. apply Nat.ltb_lt, H, Hi.
  - intros H. apply He. intros Hall.
    assert (Ht : forallb (fun i => Nat.ltb i (nrows a)) idx = true).
    { apply forallb_forall. intros i Hi. apply Nat.ltb_lt.
      rewrite Forall_forall in Hall. auto. }
    congruence.
Qed.

Lemma triple_getitem_cols (Qe : Prop) a idx Q st :
  (Forall (fun j => (j < ncols a)%nat) idx ->
   forall st', Q (take_cols idx a) st') ->
  (~ Forall (fun j => (j < ncols a)%nat) idx -> Qe) ->
  triple Qe (getitem_cols a idx) Q st.
Proof.
  intros HQ He. unfold getitem_cols. apply triple_guard.
  - intros H. apply triple_emit_ret. apply HQ.
    apply Forall_forall. intros i Hi.
    rewrite forallb_forall in H. apply Nat.ltb_lt, H, Hi.
  - intros H. apply He. intros Hall.
    assert (Ht : forallb (fun i => Nat.ltb i (ncols a)) idx = true).
    { apply forallb_forall. intros i Hi. apply Nat.ltb_lt.
      rewrite Forall_forall in Hall. auto. }
    congruence.
Qed.

Lemma triple_concatenate (Qe : Prop) a b Q st :
  (ncols a = ncols b ->
   forall st', Q (Matrix (nrows a + nrows b) (ncols a) (rows a ++ rows b)) st') ->
  (ncols a <> ncols b -> Qe) ->
  triple Qe (concatenate a b) Q st.
Proof.
  intros HQ He. unfold concatenate. apply triple_guard.
  - intros H. apply Nat.eqb_eq in H. apply triple_emit_ret. auto.
  - intros H. apply Nat.eqb_neq in H. auto.
Qed.

Lemma triple_squeeze (Qe : Prop) a Q st :
  (forall st', Q (squeezed a) st') ->
  triple Qe (squeeze a) Q st.
Proof. intros H. unfold squeeze. apply triple_emit_ret, H. Qed.

Lemma triple_np_random_permutation (Qe : Prop) n Q st :
  (forall p st', Permutation p (seq 0 (Z.to_nat n)) -> Q p st') ->
  triple Qe (np_random_permutation n) Q st.
Proof.
  intros HQ. unfold np_random_permutation, triple, run.
  pose proof (np_permutation_spec (world st) (Z.to_nat n)) as Hp.
  destruct (np_permutation (world st) (Z.to_nat n)) as [p w].
  apply HQ; assumption.
Qed.

End Operations.

(** ** The random source resolver *)

Section Resolver.

Context {E : Engine}.

Lemma accepted_kind_name (v : py_value) :
  accepted_kind v = true -> In (rs_type_of v) accepted_type_names.
Proof.
  destruct v; cbn; intros H; try discriminate; auto.
Qed.

Lemma create_rs_generator_rejects (v : py_value) (st : state) :
  ~ In (rs_type_of v) accepted_type_names ->
  run (create_rs_generator v) st = (Raise ValueError, st).
Proof.
  intros Hn. unfold create_rs_generator. cbv zeta.
  unfold accepted_type_names in Hn. cbn [In] in Hn.
  destruct (String.eqb_spec (rs_type_of v) "NoneType");
    [intuition congruence|].
  destruct (String.eqb_spec (rs_type_of v) "int");
    [intuition congruence|].
  destruct (String.eqb_spec (rs_type_of v) "cupy.random.generator.RandomState");
    [intuition congruence|].
  destruct (String.eqb_spec (rs_type_of v) "dask.array.random.RandomState");
    [intuition congruence|].
  reflexivity.
Qed.

Lemma seed_ok_dec (v : py_value) : {seed_ok v} + {~ seed_ok v}.
Proof.
  destruct v as [|z| | |]; try (left; exact I). cbn [seed_ok].
  destruct (Z_le_dec 0 z), (Z_le_dec z seed_max); (left; lia) || (right; lia).
Qed.

Lemma seed_in_range (z : Z) :
  (0 <=? z) && (z <=? seed_max) = true <-> seed_ok (PyInt z).
Proof.
  cbn [seed_ok]. rewrite andb_true_iff, !Z.leb_le. reflexivity.
Qed.

(** An integer seed out of range is refused by the constructor, with the
    state of the process untouched. *)
Lemma create_rs_generator_seed_refused (v : py_value) (st : state) :
  ~ seed_ok v -> run (create_rs_generator v) st = (Raise ValueError, st).
Proof.
  destruct v as [|z| | |]; cbn [seed_ok]; intros Hn; try (destruct Hn; exact I).
  unfold create_rs_generator, run. cbn.
  destruct ((0 <=? z) && (z <=? seed_max)) eqn:Hr; [|reflexivity].
  apply seed_in_range in Hr. destruct (Hn Hr).
Qed.

Lemma create_rs_generator_accepts (v : py_value) (st : state) :
  accepted_kind v = true -> seed_ok v ->
  exists r st',
    run (create_rs_generator v) st = (Ok (PyDaskRandomState r), st') /\
    graph st' = graph st.
Proof.
  destruct v as [|z|h|r|m n]; intros H Hs; try discriminate;
    unfold create_rs_generator, run; cbn.
  - unfold new_stream.
    destruct (rs_unseeded (world st)). eexists _, _. split; reflexivity.
  - rewrite (proj2 (seed_in_range z) Hs). eexists _, _. split; reflexivity.
  - unfold dask_RandomState_wrap, new_stream.
    destruct (rs_wrapping h (world st)). eexists _, _. split; reflexivity.
  - eexists _, _. split; reflexivity.
Qed.

Lemma triple_create_rs_generator (Qe : Prop) v Q st :
  (forall rs st',
      In (rs_type_of v) accepted_type_names ->
      (accepted_kind v = true -> exists r, rs = PyDaskRandomState r) ->
      Q rs st') ->
  (~ In (rs_type_of v) accepted_type_names \/ ~ seed_ok v -> Qe) ->
  triple Qe (create_rs_generator v) Q st.
Proof.
  intros HQ He. unfold triple.
  destruct (seed_ok_dec v) as [Hs|Hs].
  2:{ rewrite create_rs_generator_seed_refused by assumption. auto. }
  destruct (in_dec string_dec (rs_type_of v) accepted_type_names) as [Hin|Hn].
  - destruct (accepted_kind v) eqn:Hk.
    + destruct (create_rs_generator_accepts v st Hk Hs) as (r & st' & -> & _).
      apply HQ; eauto.
    + destruct v as [| | | |m n]; try discriminate.
      unfold create_rs_generator, run. cbv zeta.
      destruct (String.eqb_spec (rs_type_of (PyObject m n)) "NoneType") as [|N1].
      { cbn [orb dask_RandomState_seed]. unfold new_stream.
        destruct (rs_unseeded (world st)). apply HQ; [assumption|discriminate]. }
      destruct (String.eqb_spec (rs_type_of (PyObject m n)) "int") as [|N2].
      { cbn [orb dask_RandomState_seed]. unfold new_stream.
        destruct (rs_unseeded (world st)). apply HQ; [assumption|discriminate]. }
      cbn [orb].
      destruct (String.eqb_spec (rs_type_of (PyObject m n))
                  "cupy.random.generator.RandomState") as [|N3].
      { unfold dask_RandomState_wrap, new_stream.
        destruct (rs_unseeded (world st)). apply HQ; [assumption|discriminate]. }
      destruct (String.eqb_spec (rs_type_of (PyObject m n))
                  "dask.array.random.RandomState") as [Hd|N4].
      { apply HQ; [assumption|discriminate]. }
      exfalso. unfold accepted_type_names in Hin. cbn [In] in Hin.
      intuition congruence.
  - rewrite create_rs_generator_rejects by assumption. auto.
Qed.

End Resolver.

(** ** Arrays whose entries agree with their shape *)

Lemma well_formed_tabulate (r c : nat) f : well_formed (tabulate r c f).
Proof.
  split; cbn [tabulate rows nrows ncols].
  - rewrite length_map, length_seq. reflexivity.
  - apply Forall_forall. intros row Hin.
    apply in_map_iff in Hin. destruct Hin as (i & <- & _).
    rewrite length_map, length_seq. reflexivity.
Qed.

Lemma well_formed_map (h : R -> R) (a : matrix) :
  well_formed a ->
  well_formed (Matrix (nrows a) (ncols a) (map (map h) (rows a))).
Proof.
  intros [Hl Hr]. split; cbn [rows nrows ncols].
  - rewrite length_map. exact Hl.
  - apply Forall_forall. intros row Hin.
    apply in_map_iff in Hin. destruct Hin as (row' & <- & Hin').
    rewrite length_map. rewrite Forall_forall in Hr. auto.
Qed.

Lemma well_formed_dot (a b : matrix) :
  List.length (rows a) = nrows a ->
  well_formed
    (Matrix (nrows a) (ncols b)
       (map (fun row => map (fun j => inner row (column j b)) (seq 0 (ncols b)))
          (rows a))).
Proof.
  intros Hl. split; cbn [rows nrows ncols].
  - rewrite length_map. exact Hl.
  - apply Forall_forall. intros row Hin.
    apply in_map_iff in Hin. destruct Hin as (row' & <- & _).
    rewrite length_map, length_seq. reflexivity.
Qed.

Lemma well_formed_add (a b : matrix) :
  well_formed a -> well_formed b ->
  nrows a = nrows b -> ncols a = ncols b ->
  well_formed
    (Matrix (nrows a) (ncols a)
       (map (fun p => map (fun q => fst q + snd q)%R (combine (fst p) (snd p)))
          (combine (rows a) (rows b)))).
Proof.
  intros [Hla Hra] [Hlb Hrb] Hr Hc. split; cbn [rows nrows ncols].
  - rewrite length_map, length_combine. lia.
  - apply Forall_forall. intros row Hin.
    apply in_map_iff in Hin. destruct Hin as ([x y] & <- & Hin').
    cbn [fst snd]. rewrite length_map, length_combine.
    rewrite Forall_forall in Hra, Hrb.
    rewrite (Hra x (in_combine_l _ _ _ _ Hin')).
    rewrite (Hrb y (in_combine_r _ _ _ _ Hin')). lia.
Qed.

Lemma well_formed_concat (a b : matrix) :
  well_formed a -> well_formed b -> ncols a = ncols b ->
  well_formed (Matrix (nrows a + nrows b) (ncols a) (rows a ++ rows b)).
Proof.
  intros [Hla Hra] [Hlb Hrb] Hc. split; cbn [rows nrows ncols].
  - rewrite length_app. lia.
  - apply Forall_app. split; [exact Hra|]. rewrite Hc. exact Hrb.
Qed.

Lemma well_formed_take_rows (idx : list nat) (a : matrix) :
  well_formed a -> Forall (fun i => (i < nrows a)%nat) idx ->
  well_formed (take_rows idx a).
Proof.
  intros [Hl Hr] Hidx. split; cbn [take_rows rows nrows ncols].
  - rewrite length_map. reflexivity.
  - apply Forall_forall. intros row Hin.
    apply in_map_iff in Hin. destruct Hin as (i & <- & Hi).
    rewrite Forall_forall in Hr, Hidx.
    apply Hr, nth_In. rewrite Hl. auto.
Qed.

Lemma well_formed_take_cols (idx : list nat) (a : matrix) :
  well_formed a -> well_formed (take_cols idx a).
Proof.
  intros [Hl Hr]. split; cbn [take_cols rows nrows ncols].
  - rewrite length_map. exact Hl.
  - apply Forall_forall. intros row Hin.
    apply in_map_iff in Hin. destruct Hin as (row' & <- & _).
    rewrite length_map. reflexivity.
Qed.

Lemma length_concat_well_formed (a : matrix) :
  well_formed a ->
  List.length (concat (rows a)) = (nrows a * ncols a)%nat.
Proof.
  intros [Hl Hr]. rewrite <- Hl. clear Hl.
  induction Hr as [|row l Hrow _ IH]; [reflexivity|].
  cbn [concat List.length]. rewrite length_app, IH, Hrow. lia.
Qed.

(** ** Low-rank synthesis: shapes *)

Section LowRank.

Context {E : Engine}.

Lemma triple_default_samples_per_part (Qe : Prop) ns np Q st :
  (np <> 0 -> forall c, 1 <= c -> Q c st) ->
  (np = 0 \/ two_53 <= Z.abs ns -> Qe) ->
  triple Qe (default_samples_per_part ns np) Q st.
Proof.
  intros HQ He. unfold default_samples_per_part.
  apply triple_bind, triple_lift.
  - intros q Hq. apply triple_ret. apply HQ; [|lia].
    intros ->. discriminate Hq.
  - intros e Hq. apply He.
    destruct (Z.eq_dec np 0) as [|Hnp]; [left; assumption | right].
    destruct (Z_lt_le_dec (Z.abs ns) two_53) as [Hs|Hs]; [|exact Hs].
    destruct (truediv_small ns np Hnp Hs) as (q & Hq' & _). congruence.
Qed.

Lemma triple_samples_per_part (Qe : Prop) ns np (o : option Z) Q st :
  (forall c, (o = None -> 1 <= c) -> (o <> None -> o = Some c) -> Q c st) ->
  (o = None -> np = 0 \/ two_53 <= Z.abs ns -> Qe) ->
  triple Qe (match o with
             | None => default_samples_per_part ns np
             | Some c => ret c
             end) Q st.
Proof.
  intros HQ He. destruct o as [c|].
  - apply triple_ret. apply HQ; [discriminate | reflexivity].
  - apply triple_default_samples_per_part; [|auto].
    intros _ c Hc. apply HQ; [auto | congruence].
Qed.

Lemma axis_ok_block (d : nat) (c : Z) :
  1 <= c \/ c = -1 -> axis_ok d (Block c) = true.
Proof.
  intros H. cbn. apply orb_true_iff.
  destruct H; [left; apply Z.leb_le | right; apply Z.eqb_eq]; assumption.
Qed.

Lemma axis_ok_blocks (d : nat) (l : list Z) :
  forallb (fun x => 0 <=? x) l = true -> Py.sum l = Z.of_nat d ->
  axis_ok d (Blocks l) = true.
Proof.
  intros H1 H2. cbn. rewrite H1. apply Z.eqb_eq in H2. rewrite H2. reflexivity.
Qed.

(** The shape of the array built by [make_low_rank_matrix]: whenever the
    call returns, and it does on well-formed inputs, the result has
    [n_samples] rows and [min(n_samples, n_features)] columns. *)
Lemma triple_make_low_rank_matrix (Qe : Prop) ns nf er ts rs np nspp dt Q st :
  (forall X st',
      0 <= ns -> 0 <= nf -> well_formed X ->
      nrows X = Z.to_nat ns -> ncols X = Z.to_nat (Z.min ns nf) ->
      Q X st') ->
  Qe \/ low_rank_valid ns nf rs np nspp ->
  triple Qe (make_low_rank_matrix ns nf er ts rs np nspp dt) Q st.
Proof.
  intros HQ Hv. unfold make_low_rank_matrix.
  assert (Hfail : forall P : Prop, (low_rank_valid ns nf rs np nspp -> ~ P) -> P -> Qe).
  { intros P HP p. destruct Hv as [q|Hv]; [exact q | destruct (HP Hv p)]. }
  apply triple_bind, triple_create_rs_generator.
  2:{ apply Hfail. intros (_ & _ & _ & [Hk Hs] & _) [Hn|Hn];
        [apply Hn, accepted_kind_name, Hk | exact (Hn Hs)]. }
  intros rs' st1 _ Hrs.
  apply triple_bind, triple_lift.
  2:{ intros e. apply Hfail. intros (H1 & H2 & H3 & _) Hg.
      destruct (generate_chunks_for_qr_layout ns (Z.min ns nf) np) as (c & Hc & _);
        [lia | lia | lia | congruence]. }
  intros ch1 Hch1.
  apply triple_bind, triple_standard_normal; cbn [fst snd].
  2:{ apply Hfail. intros (H1 & H2 & H3 & [Hk _] & _) Hf.
      destruct (generate_chunks_for_qr_layout ns (Z.min ns nf) np)
        as (c & Hc & Hc1 & Hc2); [lia | lia | lia |].
      assert (c = ch1) by congruence. subst c.
      destruct Hf as [Hf|[Hf|[Hf|Hf]]]; try lia.
      - destruct (Hrs Hk) as [r Hr]. apply (Hf r Hr).
      - rewrite axis_ok_blocks in Hf by (rewrite ?Z2Nat.id; auto; lia).
        discriminate. }
  intros r1 f1 st2 Hr1 Hns Hn _ _.
  apply triple_bind, triple_linalg_qr. intros st3. cbn [fst].
  apply triple_bind, triple_lift.
  2:{ intros e. apply Hfail. intros (H1 & H2 & H3 & _) Hg.
      destruct (generate_chunks_for_qr_layout nf (Z.min ns nf) np) as (c & Hc & _);
        [lia | lia | lia | congruence]. }
  intros ch2 Hch2.
  apply triple_bind, triple_standard_normal; cbn [fst snd].
  2:{ apply Hfail. intros (H1 & H2 & H3 & [Hk _] & _) Hf.
      destruct (generate_chunks_for_qr_layout nf (Z.min ns nf) np)
        as (c & Hc & Hc1 & Hc2); [lia | lia | lia |].
      assert (c = ch2) by congruence. subst c.
      destruct Hf as [Hf|[Hf|[Hf|Hf]]]; try lia.
      - destruct (Hrs Hk) as [r Hr]. apply (Hf r Hr).
      - rewrite (axis_ok_blocks _ ch2) in Hf by (rewrite ?Z2Nat.id; auto; lia).
        rewrite andb_true_r in Hf. discriminate. }
  intros r2 f2 st4 Hr2 _ Hnf _ _.
  apply triple_bind, triple_linalg_qr. intros st5. cbn [fst].
  apply triple_bind, triple_samples_per_part.
  2:{ intros _. apply Hfail. intros (H1 & _ & H3 & _). lia. }
  intros c Hc1 Hc2.
  assert (Hblock : Qe \/ (1 <= c \/ c = -1)).
  { destruct Hv as [q|(_ & _ & _ & _ & Hs)]; [left; exact q | right].
    destruct nspp as [c'|]; [|left; auto].
    cbn in Hs. assert (Some c' = Some c) by (apply Hc2; discriminate).
    congruence. }
  apply triple_bind, triple_rechunk; cbn [fst snd tabulate nrows ncols].
  2:{ intros Hf. destruct Hblock as [q|Hb]; [exact q|].
      rewrite axis_ok_block in Hf by assumption. discriminate. }
  intros _ _ st6.
  apply triple_bind, triple_rechunk; cbn [fst snd tabulate nrows ncols].
  2:{ intros Hf. destruct Hblock as [q|Hb]; [exact q|].
      rewrite axis_ok_block in Hf by assumption. discriminate. }
  intros _ _ st7.
  apply triple_bind, triple_from_array.
  2:{ intros Hf. destruct Hblock as [q|Hb]; [exact q|].
      rewrite axis_ok_block in Hf by assumption. discriminate. }
  intros _ st8.
  assert (Hlen : List.length (singular_profile (Z.min ns nf) er ts)
                 = Z.to_nat (Z.min ns nf)).
  { rewrite singular_profile_eq, length_map, length_seq. reflexivity. }
  apply triple_bind, triple_mul_broadcast_eq; cbn [nrows ncols tabulate fst].
  { rewrite Hlen. lia. }
  intros st9.
  apply triple_dot; cbn [nrows ncols tabulate fst].
  2:{ intros Hf. exfalso. apply Hf. lia. }
  intros _ st10. apply HQ; cbn [nrows ncols tabulate fst]; try lia.
  apply well_formed_dot. cbn [rows nrows tabulate fst].
  rewrite !length_map, length_seq. reflexivity.
Qed.

End LowRank.

(** ** Regression assembly *)

Section Assembly.

Context {E : Engine}.

Lemma triple_seq {A B : Type} (Qe : Prop) (c : M A) (f : A -> M B)
    (P : A -> state -> Prop) Q st :
  triple Qe c P st ->
  (forall a st', P a st' -> triple Qe (f a) Q st') ->
  triple Qe (bind c f) Q st.
Proof.
  intros Hc Hf. apply triple_bind.
  eapply triple_conseq; [|exact Hc]. exact Hf.
Qed.

Lemma length_concat_map_rows {A : Type} (g : A -> nat -> R) (l : list A) (c : nat) :
  List.length (concat (map (fun i => map (g i) (seq 0 c)) l))
  = (List.length l * c)%nat.
Proof.
  induction l as [|x l IH]; [reflexivity|].
  cbn [map concat List.length]. rewrite length_app, IH, length_map, length_seq.
  lia.
Qed.

Lemma length_concat_scaled (k : R) (r c : nat) f :
  List.length (concat (map (map (fun x => k * x)%R) (rows (tabulate r c f))))
  = (r * c)%nat.
Proof.
  cbn [tabulate rows]. rewrite map_map.
  erewrite map_ext; [|intros i; apply map_map].
  rewrite (length_concat_map_rows (fun i j => (k * f i j)%R)), length_seq.
  reflexivity.
Qed.

Lemma map_zero_repeat {A : Type} (g : A -> R) (l : list A) :
  map (fun x => 0.0 * x)%R (map g l) = repeat 0%R (List.length l).
Proof.
  induction l as [|x l IH]; [reflexivity|].
  cbn [map repeat List.length]. rewrite IH. f_equal. lra.
Qed.

Lemma concat_zeroes (r c : nat) f :
  concat (map (map (fun x => 0.0 * x)%R) (rows (tabulate r c f)))
  = repeat 0%R (r * c).
Proof.
  cbn [tabulate rows]. rewrite map_map.
  replace (r * c)%nat with (List.length (seq 0 r) * c)%nat
    by (rewrite length_seq; reflexivity).
  generalize (seq 0 r) as l.
  induction l as [|i l IH]; [reflexivity|].
  cbn [map concat List.length]. rewrite IH, map_zero_repeat, length_seq.
  rewrite <- repeat_app. reflexivity.
Qed.

Lemma slice_stop_within (k : Z) (d : nat) :
  0 <= k <= Z.of_nat d -> slice_stop k d = Z.to_nat k.
Proof.
  intros H. unfold slice_stop.
  destruct (Z.leb_spec 0 k); lia.
Qed.

Lemma axis_ok_two_blocks (d : nat) (x y : Z) :
  axis_ok d (Blocks [x; y]) = true <->
  0 <= x /\ 0 <= y /\ x + y = Z.of_nat d.
Proof.
  cbn. rewrite !andb_true_iff, !Z.leb_le, Z.eqb_eq. intuition lia.
Qed.

Lemma Forall_lt_permutation (p : list nat) (n : nat) :
  Permutation p (seq 0 n) -> Forall (fun i => (i < n)%nat) p.
Proof.
  intros Hp. apply Forall_forall. intros i Hi.
  apply (Permutation_in _ Hp) in Hi. apply in_seq in Hi. lia.
Qed.

(** The shuffle: both permutations are permutations of the whole range,
    the first selects the rows of [X] and of [y], the second the columns of
    [X] and the rows of the coefficients. *)
Lemma triple_shuffle_step (Qe : Prop) ns nf X y gt Q st :
  nrows X = Z.to_nat ns -> nrows y = Z.to_nat ns ->
  ncols X = Z.to_nat nf -> nrows gt = Z.to_nat nf ->
  (forall r f st',
      Permutation r (seq 0 (Z.to_nat ns)) ->
      Permutation f (seq 0 (Z.to_nat nf)) ->
      Q (take_cols f (take_rows r X), take_rows r y, take_rows f gt) st') ->
  triple Qe (shuffle_step ns nf X y gt) Q st.
Proof.
  intros HX Hy HXc Hgt HQ. unfold shuffle_step.
  apply triple_bind, triple_np_random_permutation.
  intros r st1 Hr.
  pose proof (Forall_lt_permutation _ _ Hr) as Hrlt.
  apply triple_bind, triple_getitem_rows;
    [|intros Hf; exfalso; apply Hf; rewrite HX; exact Hrlt].
  intros _ st2.
  apply triple_bind, triple_getitem_rows;
    [|intros Hf; exfalso; apply Hf; rewrite Hy; exact Hrlt].
  intros _ st3.
  apply triple_bind, triple_np_random_permutation.
  intros f st4 Hf.
  pose proof (Forall_lt_permutation _ _ Hf) as Hflt.
  apply triple_bind, triple_getitem_cols;
    [|intros Hx; exfalso; apply Hx; cbn [take_rows ncols]; rewrite HXc; exact Hflt].
  intros _ st5.
  apply triple_bind, triple_getitem_rows;
    [|intros Hx; exfalso; apply Hx; rewrite Hgt; exact Hflt].
  intros _ st6. apply triple_ret. apply HQ; assumption.
Qed.

(** [assemble], whenever it returns, returns arrays satisfying
    [assembled_post]; on well-formed inputs it returns. *)
Lemma triple_assemble (Qe : Prop) (a : regression_args) Q st :
  (forall pre st', assembled_post a pre -> Q pre st') ->
  Qe \/ regression_valid a ->
  triple Qe (assemble a) Q st.
Proof.
  intros HQ Hv.
  assert (Hfail : forall P : Prop, (regression_valid a -> ~ P) -> P -> Qe).
  { intros P HP p. destruct Hv as [q|Hv]; [exact q | destruct (HP Hv p)]. }
  unfold assemble.
  set (ni := Z.min (n_features a) (n_informative a)).
  assert (Hni_le : ni <= n_features a) by (subst ni; lia).
  set (ns' := Z.to_nat (n_samples a)).
  set (nf' := Z.to_nat (n_features a)).
  set (nt' := Z.to_nat (n_targets a)).
  apply triple_bind, triple_create_rs_generator.
  2:{ apply Hfail. intros (_ & _ & _ & _ & _ & [Hk Hs] & _) [Hn|Hn];
        [apply Hn, accepted_kind_name, Hk | exact (Hn Hs)]. }
  intros rs st1 _ Hrs.
  assert (Hdask : (forall r, rs <> PyDaskRandomState r) -> Qe).
  { intros Hn. destruct Hv as [q|(_ & _ & _ & _ & _ & [Hk _] & _)]; [exact q|].
    destruct (Hrs Hk) as [r Hr]. destruct (Hn r Hr). }
  apply triple_bind, triple_samples_per_part.
  2:{ intros _. apply Hfail. intros (H1 & _ & _ & _ & H & _). lia. }
  intros c Hc1 Hc2.
  assert (Hblock : forall d, axis_ok d (Block c) = false -> Qe).
  { intros d Hd. destruct Hv as [q|(_ & _ & _ & _ & _ & _ & Hs & _)]; [exact q|].
    rewrite axis_ok_block in Hd; [discriminate|].
    destruct (n_samples_per_part a) as [c'|]; [|left; auto].
    cbn in Hs. assert (Some c' = Some c) by (apply Hc2; discriminate).
    congruence. }
  (* the feature matrix *)
  eapply triple_seq with
    (P := fun X _ => 0 <= n_samples a /\ 0 <= n_features a /\ 0 <= ni /\
                     (effective_rank a <> None ->
                      n_features a <= n_samples a) /\
                     well_formed X /\ nrows X = ns' /\ ncols X = nf').
  { destruct (effective_rank a) as [er|] eqn:Her.
    - apply triple_bind, triple_make_low_rank_matrix.
      2:{ destruct Hv as [q|Hv]; [left; exact q | right].
          destruct Hv as (H1 & H2 & H3 & H4 & H5 & [Hk _] & H7 & [H8|H8]);
            [congruence|].
          destruct (Hrs Hk) as [r ->].
          unfold low_rank_valid. cbn. repeat split; lia. }
      intros X st2 Hns Hnf HXwf HXr HXc.
      apply triple_rechunk; cbn [fst snd].
      2:{ intros Hf. apply andb_false_iff in Hf. destruct Hf as [Hf|Hf].
          - apply (Hblock _ Hf).
          - revert Hf. apply Hfail.
            intros (H1 & H2 & H3 & H4 & H5 & _ & H7 & [H8|H8]) Hf;
              [congruence|].
            assert (Ht : axis_ok (ncols X) (Blocks [ni; n_features a - ni]) = true).
            { apply axis_ok_two_blocks. rewrite HXc. subst ni. lia. }
            congruence. }
      intros _ Hax st3. apply axis_ok_two_blocks in Hax.
      subst ns' nf'.
      split; [lia|]. split; [lia|]. split; [lia|]. split; [lia|].
      split; [exact HXwf|]. split; lia.
    - apply triple_standard_normal; cbn [fst snd].
      2:{ intros [Hf|[Hf|[Hf|Hf]]].
          - apply (Hdask Hf).
          - revert Hf. apply Hfail. intros (H1 & _). lia.
          - revert Hf. apply Hfail. intros (_ & H2 & _). lia.
          - apply andb_false_iff in Hf. destruct Hf as [Hf|Hf].
            + apply (Hblock _ Hf).
            + revert Hf. apply Hfail. intros (H1 & H2 & H3 & _) Hf.
              assert (Ht : axis_ok (Z.to_nat (n_features a))
                             (Blocks [ni; n_features a - ni]) = true).
              { apply axis_ok_two_blocks. subst ni. lia. }
              congruence. }
      intros r f st2 _ Hns Hnf _ Hax. apply axis_ok_two_blocks in Hax.
      split; [lia|]. split; [lia|]. split; [lia|].
      split; [intros Hn; destruct (Hn eq_refl)|].
      split; [apply well_formed_tabulate|]. split; reflexivity. }
  intros X st2 (Hns & Hnf & Hni & Hwide & HXwf & HXr & HXc).
  (* the informative coefficients and the targets *)
  apply triple_bind, triple_standard_normal; cbn [fst snd].
  2:{ intros [Hf|[Hf|[Hf|Hf]]].
      - apply (Hdask Hf).
      - lia.
      - revert Hf. apply Hfail. intros (_ & _ & _ & H4 & _). lia.
      - rewrite andb_true_r in Hf. apply (Hblock _ Hf). }
  intros r f st3 Hr _ Hnt _ _.
  apply triple_bind, triple_scalar_mul. intros st4. fold nt'.
  pose proof (well_formed_map (fun x => 100.0 * x)%R _
                (well_formed_tabulate (Z.to_nat ni) nt' f)) as Hgwf.
  set (g := Matrix (nrows (tabulate (Z.to_nat ni) nt' f))
              (ncols (tabulate (Z.to_nat ni) nt' f)) _) in *.
  assert (Hgr : nrows g = Z.to_nat ni) by reflexivity.
  assert (Hgc : ncols g = nt') by reflexivity.
  apply triple_bind, triple_getitem_cols_upto. intros st5.
  set (Xi := Matrix (nrows X) (slice_stop ni (ncols X)) _).
  assert (HXi : List.length (rows Xi) = nrows Xi).
  { subst Xi. cbn [rows nrows]. rewrite length_map. apply HXwf. }
  apply triple_bind, triple_dot.
  2:{ intros Hf. exfalso. apply Hf. subst Xi. cbn [ncols]. rewrite Hgr.
      apply slice_stop_within. rewrite HXc. subst nf'. lia. }
  intros _ st6.
  pose proof (well_formed_dot Xi g HXi) as Hdwf.
  set (d := Matrix (nrows Xi) (ncols g) _) in *.
  apply triple_bind, triple_add_scalar. intros st7.
  pose proof (well_formed_map (fun x => x + bias a)%R d Hdwf) as Hywf.
  set (y0 := Matrix (nrows d) (ncols d) _) in *.
  assert (Hy0r : nrows y0 = ns') by exact HXr.
  assert (Hy0c : ncols y0 = nt') by reflexivity.
  apply triple_bind, triple_rechunk; [|cbn; discriminate].
  intros _ _ st8.
  (* the coefficients of the features that are not informative *)
  eapply triple_seq with
    (P := fun gt _ =>
            well_formed gt /\ nrows gt = nf' /\ ncols gt = nt' /\
            skipn (Z.to_nat ni * nt') (concat (rows gt))
            = repeat 0%R ((nf' - Z.to_nat ni) * nt')).
  { pose proof (length_concat_well_formed g Hgwf) as Hglen.
    rewrite Hgr, Hgc in Hglen.
    destruct (Z.eqb_spec ni (n_features a)) as [Heq|Hneq].
    - apply triple_ret. split; [exact Hgwf|].
      split; [rewrite Hgr, Heq; reflexivity|]. split; [exact Hgc|].
      rewrite skipn_all2 by (rewrite Hglen; lia).
      rewrite Heq. fold nf'. rewrite Nat.sub_diag. reflexivity.
    - apply triple_bind, triple_standard_normal; cbn [fst snd].
      2:{ intros [Hf|[Hf|[Hf|Hf]]].
          - apply (Hdask Hf).
          - lia.
          - lia.
          - discriminate. }
      intros r' f' st9 _ _ _ _ _.
      apply triple_bind, triple_scalar_mul. intros st10. fold nt'.
      pose proof (well_formed_map (fun x => 0.0 * x)%R _
                    (well_formed_tabulate
                       (Z.to_nat (n_features a - ni)) nt' f')) as Hzwf.
      pose proof (concat_zeroes (Z.to_nat (n_features a - ni)) nt' f') as Hz0.
      set (z := Matrix (nrows (tabulate (Z.to_nat (n_features a - ni)) nt' f'))
                  (ncols (tabulate (Z.to_nat (n_features a - ni)) nt' f')) _)
        in *.
      assert (Hzr : nrows z = Z.to_nat (n_features a - ni)) by reflexivity.
      assert (Hzc : ncols z = nt') by reflexivity.
      change (concat (rows z) = repeat 0%R (Z.to_nat (n_features a - ni) * nt'))
        in Hz0.
      apply triple_bind, triple_concatenate;
        [|intros Hf; exfalso; apply Hf; congruence].
      intros _ st11.
      apply triple_rechunk; [|cbn; discriminate].
      intros _ _ st12.
      split; [apply (well_formed_concat g z Hgwf Hzwf); congruence|].
      cbn [nrows ncols rows].
      split; [rewrite Hgr, Hzr; subst nf'; lia|]. split; [exact Hgc|].
      rewrite concat_app, Hz0.
      rewrite skipn_app, skipn_all2 by (rewrite Hglen; lia).
      rewrite Hglen, Nat.sub_diag. cbn [skipn app].
      f_equal. subst nf'. nia. }
  intros gt st9 (Hgt0 & Hgt1 & Hgt2 & Hgt3).
  (* noise *)
  eapply triple_seq with
    (P := fun y _ => well_formed y /\ nrows y = ns' /\ ncols y = nt').
  { destruct (Rlt_dec 0.0 (noise a)).
    - apply triple_bind, triple_normal; [|exact Hdask].
      intros r' f' st10 _.
      pose proof (well_formed_tabulate (fst (shape y0)) (snd (shape y0)) f')
        as Hnwf.
      set (nz := tabulate (fst (shape y0)) (snd (shape y0)) f') in *.
      assert (Hnr : nrows nz = nrows y0) by reflexivity.
      assert (Hnc : ncols nz = ncols y0) by reflexivity.
      apply triple_add.
      + intros _ _ st11. split; [|split; assumption].
        apply (well_formed_add y0 nz Hywf Hnwf); congruence.
      + intros [Hf|Hf]; exfalso; apply Hf; congruence.
    - apply triple_ret. split; [exact Hywf|]. split; assumption. }
  intros y st10 (Hy0 & Hy1 & Hy2).
  apply triple_ret, HQ. unfold assembled_post, shape. cbn [fst snd].
  fold ns' nf' nt' ni.
  rewrite HXr, HXc, Hy1, Hy2, Hgt1, Hgt2.
  split; [exact Hns|]. split; [exact Hnf|]. split; [exact Hwide|].
  split; [exact HXwf|]. split; [reflexivity|].
  split; [exact Hy0|]. split; [reflexivity|].
  split; [exact Hgt0|]. split; [reflexivity | exact Hgt3].
Qed.

(** [make_regression], whenever it returns, returns a result satisfying
    [regression_post]; on well-formed inputs it returns. *)
Lemma triple_make_regression (Qe : Prop) (a : regression_args) Q st :
  (forall out st', regression_post a out -> Q out st') ->
  Qe \/ regression_valid a ->
  triple Qe (make_regression a) Q st.
Proof.
  intros HQ Hv. unfold make_regression.
  set (ns' := Z.to_nat (n_samples a)).
  set (nf' := Z.to_nat (n_features a)).
  set (nt' := Z.to_nat (n_targets a)).
  apply triple_bind, triple_assemble; [|exact Hv].
  intros [[X y] gt] st1 Hpre. unfold assembled_post, shape in Hpre.
  cbn [fst snd] in *. fold ns' nf' nt' in Hpre.
  destruct Hpre
    as (Hns & Hnf & _ & HXwf & HXs & Hywf & Hys & Hgwf & Hgs & Hzero).
  injection HXs as HXr HXc. injection Hys as Hyr Hyc.
  injection Hgs as Hgr Hgc.
  eapply triple_seq with
    (P := fun sh _ =>
            well_formed (fst (fst sh)) /\
            nrows (fst (fst sh)) = ns' /\ ncols (fst (fst sh)) = nf' /\
            well_formed (snd (fst sh)) /\
            nrows (snd (fst sh)) = ns' /\ ncols (snd (fst sh)) = nt' /\
            well_formed (snd sh) /\
            nrows (snd sh) = nf' /\ ncols (snd sh) = nt' /\
            (shuffle a = false -> snd sh = gt)).
  { destruct (shuffle a).
    - apply triple_shuffle_step; try assumption.
      intros p q st2 Hp Hq.
      pose proof (Forall_lt_permutation _ _ Hp) as Hplt.
      pose proof (Forall_lt_permutation _ _ Hq) as Hqlt.
      apply Permutation_length in Hp, Hq. rewrite length_seq in Hp, Hq.
      cbn [fst snd].
      split; [apply well_formed_take_cols, well_formed_take_rows;
              [assumption | rewrite HXr; exact Hplt]|].
      split; [exact Hp|]. split; [exact Hq|].
      split; [apply well_formed_take_rows;
              [assumption | rewrite Hyr; exact Hplt]|].
      split; [exact Hp|]. split; [exact Hyc|].
      split; [apply well_formed_take_rows;
              [assumption | rewrite Hgr; exact Hqlt]|].
      split; [exact Hq|]. split; [exact Hgc|]. discriminate.
    - apply triple_ret. cbn [fst snd].
      split; [exact HXwf|]. split; [exact HXr|]. split; [exact HXc|].
      split; [exact Hywf|]. split; [exact Hyr|]. split; [exact Hyc|].
      split; [exact Hgwf|]. split; [exact Hgr|]. split; [exact Hgc|].
      reflexivity. }
  intros [[X' y'] gt'] st2 (H0 & H1 & H2 & Hy' & H3 & H4 & Hg' & H5 & H6 & H7).
  cbn [fst snd] in *.
  apply triple_bind, triple_squeeze. intros st3.
  pose proof (length_concat_well_formed y' Hy') as Hylen.
  pose proof (length_concat_well_formed gt' Hg') as Hglen.
  rewrite H3, H4 in Hylen. rewrite H5, H6 in Hglen.
  destruct (coef a) eqn:Hcoef.
  - apply triple_bind, triple_squeeze. intros st4.
    apply triple_ret, HQ. unfold regression_post, shape, squeezed.
    cbn [fst snd nd_shape nd_data]. fold ns' nf' nt'.
    rewrite H1, H2, H3, H4, H5, H6.
    split; [assumption|]. split; [reflexivity|]. split; [reflexivity|].
    split; [assumption|]. split; [assumption|]. split; [reflexivity|].
    split; [assumption|]. intros Hs. rewrite (H7 Hs). exact Hzero.
  - apply triple_ret, HQ. unfold regression_post, shape, squeezed.
    cbn [fst snd nd_shape nd_data]. fold ns' nf' nt'.
    rewrite H1, H2, H3, H4.
    split; [assumption|]. split; [reflexivity|]. split; [reflexivity|].
    split; assumption.
Qed.

End Assembly.

(** ** The claims about the module *)

Section Claims.

Context {E : Engine}.


(** C10. [order] has no effect: two calls that differ only in [order],
    started in the same state of the process, return the same [X], [y] and
    coefficients (and leave the same state). *)
Theorem make_regression_order_irrelevant (a : regression_args) (o : string)
    (st : state) :
  run (make_regression (with_order o a)) st = run (make_regression a) st.
Proof.
  destruct a. unfold with_order. cbn. reflexivity.
Qed.

(** The shape of the synthesised matrix on well-formed inputs: [n_samples]
    rows and [min(n_samples, n_features)] columns. *)
Lemma make_low_rank_matrix_shape ns nf er ts rs np nspp dt st :
  low_rank_valid ns nf rs np nspp ->
  exists X st',
    run (make_low_rank_matrix ns nf er ts rs np nspp dt) st = (Ok X, st') /\
    shape X = (Z.to_nat ns, Z.to_nat (Z.min ns nf)).
Proof.
  intros Hv. apply triple_total, triple_make_low_rank_matrix; [|right; exact Hv].
  intros X st' _ _ _ Hr Hc. unfold shape. rewrite Hr, Hc. reflexivity.
Qed.

(** With no more features than samples, the shape is the documented one. *)
Lemma make_low_rank_matrix_tall ns nf er ts rs np nspp dt st :
  low_rank_valid ns nf rs np nspp -> nf <= ns ->
  exists X st',
    run (make_low_rank_matrix ns nf er ts rs np nspp dt) st = (Ok X, st') /\
    shape X = (Z.to_nat ns, Z.to_nat nf).
Proof.
  intros Hv Hle.
  destruct (make_low_rank_matrix_shape ns nf er ts rs np nspp dt st Hv)
    as (X & st' & Hrun & Hs).
  exists X, st'. split; [exact Hrun|]. rewrite Hs, Z.min_r by lia. reflexivity.
Qed.

(** C2, at an input with more features than samples.  For
    [n_samples = 2], [n_features = 3] (one part, any effective rank and
    tail strength) [make_low_rank_matrix] returns a matrix of shape [(2, 2)],
    not [(2, 3)]: the second factor is [q] of the factorisation of the
    [2 x 3] draw, and that [q] is [2 x 2]. *)
Theorem make_low_rank_matrix_wide (er ts : R) (dt : string) (st : state) :
  (exists X st',
      run (make_low_rank_matrix 2 3 er ts (PyInt 0) 1 None dt) st = (Ok X, st') /\
      shape X = (2%nat, 2%nat) /\
      shape X <> (2%nat, 3%nat)) /\
  (forall m2 st0,
      shape m2 = (2%nat, 3%nat) ->
      exists v r st1,
        run (linalg_qr m2) st0 = (Ok (v, r), st1) /\
        shape v = (2%nat, 2%nat)).
Proof.
  split.
  - destruct (make_low_rank_matrix_shape 2 3 er ts (PyInt 0) 1 None dt st)
      as (X & st' & Hrun & Hs).
    { unfold low_rank_valid. cbn. unfold two_53, seed_max. repeat split; lia. }
    exists X, st'. split; [exact Hrun|]. rewrite Hs. cbn.
    split; [reflexivity | discriminate].
  - intros m2 st0 Hm. unfold shape in Hm. injection Hm as Hr Hc.
    unfold linalg_qr, run. cbn [bind ret Monad_M emit].
    eexists _, _, _. split; [reflexivity|].
    unfold shape. cbn [tabulate nrows ncols]. rewrite Hr, Hc. reflexivity.
Qed.

(** What [make_regression] returns on well-formed inputs. *)
Lemma make_regression_returns (a : regression_args) (st : state) :
  regression_valid a ->
  exists out st',
    run (make_regression a) st = (Ok out, st') /\ regression_post a out.
Proof.
  intros Hv. apply triple_total, triple_make_regression; [|right; exact Hv].
  intros out st' H. exact H.
Qed.

(** What [make_regression] returns, when it returns. *)
Lemma make_regression_returned (a : regression_args) (st st' : state) out :
  run (make_regression a) st = (Ok out, st') -> regression_post a out.
Proof.
  intros Hrun.
  apply (triple_returns True (make_regression a)
           (fun out _ => regression_post a out) st out st'); [|exact Hrun].
  apply triple_make_regression; [|left; exact I].
  intros o s H. exact H.
Qed.

(** X16. Whenever [make_regression] returns and [n_samples] is not [1], the
    shape of [y] is the documented one: [(n_samples,)] for one target and
    [(n_samples, n_targets)] otherwise. *)
Lemma make_regression_y_shape (a : regression_args) (st st' : state) X y c :
  run (make_regression a) st = (Ok (X, y, c), st') ->
  n_samples a <> 1 ->
  nd_shape y =
    if n_targets a =? 1 then [Z.to_nat (n_samples a)]
    else [Z.to_nat (n_samples a); Z.to_nat (n_targets a)].
Proof.
  intros Hrun Hns.
  pose proof (make_regression_returned a st st' _ Hrun) as (_ & _ & Hy & _).
  cbn [fst snd] in Hy. rewrite Hy. unfold squeeze_shape. cbn [filter].
  assert (Hs : Nat.eqb (Z.to_nat (n_samples a)) 1 = false).
  { apply Nat.eqb_neq. lia. }
  rewrite Hs. cbn [negb].
  destruct (Z.eqb_spec (n_targets a) 1) as [Ht|Ht].
  - rewrite Ht. reflexivity.
  - assert (Hn : Nat.eqb (Z.to_nat (n_targets a)) 1 = false).
    { apply Nat.eqb_neq. lia. }
    rewrite Hn. reflexivity.
Qed.

(** C3, at a single sample.  With [n_samples = 1] and [n_targets = 2] the
    returned [y] has shape [(2,)], not [(1, 2)]: [da.squeeze] drops the
    sample axis too. *)
Theorem make_regression_single_sample (st : state) :
  exists X y c st',
    run (make_regression (small_args 1 1 1 2 false)) st = (Ok (X, y, c), st') /\
    nd_shape y = [2%nat] /\
    nd_shape y <> [1%nat; 2%nat].
Proof.
  destruct (make_regression_returns (small_args 1 1 1 2 false) st)
    as ([[X y] c] & st' & Hrun & _ & _ & Hy & _).
  { unfold regression_valid. cbn. unfold two_53, seed_max.
  repeat split; try lia; left; reflexivity. }
  exists X, y, c, st'. split; [exact Hrun|].
  cbn in Hy. rewrite Hy. split; [reflexivity | discriminate].
Qed.

(** C6, without shuffle.  When coefficients are requested, shuffle is not,
    and [n_informative < n_features], the returned coefficients hold
    [n_features * n_targets] entries and those of rows
    [n_informative .. n_features - 1] (in row-major order: all entries from
    position [n_informative * n_targets] on) are exactly zero.  For
    [n_features = 8], [n_informative = 3], [n_targets = 1] these are the last
    [5] entries of the coefficient vector. *)
Theorem coefficients_zero_rows (a : regression_args) (st st' : state) X y c :
  coef a = true -> shuffle a = false ->
  n_informative a < n_features a ->
  run (make_regression a) st = (Ok (X, y, c), st') ->
  let nf := Z.to_nat (n_features a) in
  let nt := Z.to_nat (n_targets a) in
  let ni := Z.to_nat (n_informative a) in
  exists g,
    c = Some g /\
    List.length (nd_data g) = (nf * nt)%nat /\
    skipn (ni * nt) (nd_data g) = repeat 0%R ((nf - ni) * nt).
Proof.
  intros Hcoef Hshuffle Hlt Hrun nf nt ni.
  apply make_regression_returned in Hrun.
  destruct Hrun as (_ & _ & _ & _ & Hc). cbn [snd] in Hc.
  destruct c as [g|]; [|congruence].
  destruct Hc as (_ & _ & Hlen & Hz). specialize (Hz Hshuffle).
  exists g. split; [reflexivity|]. split; [exact Hlen|].
  rewrite Z.min_r in Hz by lia. exact Hz.
Qed.

Lemma fold_right_Rplus_permutation (h : nat -> R) (l l' : list nat) :
  Permutation l l' ->
  fold_right Rplus 0%R (map h l) = fold_right Rplus 0%R (map h l').
Proof.
  induction 1 as [|x l l' _ IH|x x' l|l l' l'' _ IH1 _ IH2]; cbn.
  - reflexivity.
  - rewrite IH. reflexivity.
  - lra.
  - congruence.
Qed.

Lemma map_nth_seq {A : Type} (l : list A) (d : A) :
  map (fun i => nth i l d) (seq 0 (List.length l)) = l.
Proof.
  induction l as [|x l IH]; [reflexivity|].
  cbn [List.length seq map nth]. f_equal.
  rewrite <- seq_shift, map_map. exact IH.
Qed.

(** Selecting the entries of a list along a permutation of its indices does
    not change an inner product, when the other list is selected alike. *)
Lemma inner_permuted (x w : list R) (f : list nat) :
  List.length w = List.length x ->
  Permutation f (seq 0 (List.length x)) ->
  inner (map (fun j => nth j x 0%R) f) (map (fun j => nth j w 0%R) f)
  = inner x w.
Proof.
  intros Hlen Hf. unfold inner.
  rewrite combine_map_same, map_map. cbn [fst snd].
  rewrite (fold_right_Rplus_permutation
             (fun j => (nth j x 0 * nth j w 0)%R) _ _ Hf).
  assert (Hc : combine x w
               = map (fun j => (nth j x 0%R, nth j w 0%R))
                   (seq 0 (List.length x))).
  { rewrite <- combine_map_same, map_nth_seq, <- Hlen, map_nth_seq.
    reflexivity. }
  rewrite Hc, map_map. reflexivity.
Qed.

Lemma column_take_rows (t : nat) (f : list nat) (a : matrix) :
  column t (take_rows f a) = map (fun j => nth j (column t a) 0%R) f.
Proof.
  unfold column. cbn [take_rows rows]. rewrite map_map.
  apply map_ext. intros j.
  generalize (rows a) as l. intros l. revert j.
  induction l as [|row l IH]; intros [|j]; cbn [nth map];
    try (destruct t; reflexivity).
  apply IH.
Qed.

(** The shuffle on arrays of the right shapes: it returns, and what it
    returns is determined by two successive draws from NumPy's global
    generator. *)
Lemma shuffle_step_run (ns nf : Z) (X y gt : matrix) (st : state) :
  well_formed X -> well_formed gt ->
  nrows X = Z.to_nat ns -> nrows y = Z.to_nat ns ->
  ncols X = Z.to_nat nf -> nrows gt = Z.to_nat nf ->
  let draw1 := np_permutation (world st) (Z.to_nat ns) in
  let draw2 := np_permutation (snd draw1) (Z.to_nat nf) in
  let r := fst draw1 in
  let f := fst draw2 in
  Permutation r (seq 0 (Z.to_nat ns)) /\
  Permutation f (seq 0 (Z.to_nat nf)) /\
  (exists st',
      run (shuffle_step ns nf X y gt) st
      = (Ok (take_cols f (take_rows r X), take_rows r y, take_rows f gt), st')) /\
  Permutation (rows (take_rows r X)) (rows X) /\
  Forall2 (fun row' row => row' = map (fun j => nth j row 0%R) f /\
                           Permutation row' row)
    (rows (take_cols f (take_rows r X))) (rows (take_rows r X)) /\
  (forall x t,
      In x (rows (take_rows r X)) ->
      inner (map (fun j => nth j x 0%R) f) (column t (take_rows f gt))
      = inner x (column t gt)).
Proof.
  intros [HXlen HXrows] [Hglen _] HXr Hyr HXc Hgr. cbv zeta.
  pose proof (np_permutation_spec (world st) (Z.to_nat ns)) as Hr.
  destruct (np_permutation (world st) (Z.to_nat ns)) as [r w1] eqn:Hdraw1.
  pose proof (np_permutation_spec w1 (Z.to_nat nf)) as Hf.
  cbn [fst snd] in *.
  destruct (np_permutation w1 (Z.to_nat nf)) as [f w2] eqn:Hdraw2.
  cbn [fst snd] in *.
  pose proof (Forall_lt_permutation _ _ Hr) as Hrlt.
  pose proof (Forall_lt_permutation _ _ Hf) as Hflt.
  assert (Hrows : Forall (fun row => List.length row = Z.to_nat nf)
                    (rows (take_rows r X))).
  { cbn [take_rows rows]. apply Forall_forall. intros row Hin.
    apply in_map_iff in Hin. destruct Hin as (i & <- & Hi).
    rewrite Forall_forall in Hrlt, HXrows. rewrite <- HXc.
    apply HXrows, nth_In. rewrite HXlen, HXr. apply Hrlt, Hi. }
  split; [exact Hr|]. split; [exact Hf|]. split; [|split; [|split]].
  - unfold shuffle_step, run, np_random_permutation, getitem_rows, getitem_cols.
    cbn [bind Monad_M].
    rewrite Hdraw1.
    assert (H1 : forallb (fun i => Nat.ltb i (nrows X)) r = true).
    { apply forallb_forall. intros i Hi. apply Nat.ltb_lt.
      rewrite Forall_forall in Hrlt. rewrite HXr. auto. }
    assert (H2 : forallb (fun i => Nat.ltb i (nrows y)) r = true).
    { apply forallb_forall. intros i Hi. apply Nat.ltb_lt.
      rewrite Forall_forall in Hrlt. rewrite Hyr. auto. }
    assert (H3 : forallb (fun j => Nat.ltb j (ncols (take_rows r X))) f = true).
    { apply forallb_forall. intros i Hi. apply Nat.ltb_lt.
      rewrite Forall_forall in Hflt. cbn [take_rows ncols]. rewrite HXc. auto. }
    assert (H4 : forallb (fun i => Nat.ltb i (nrows gt)) f = true).
    { apply forallb_forall. intros i Hi. apply Nat.ltb_lt.
      rewrite Forall_forall in Hflt. rewrite Hgr. auto. }
    rewrite H1. cbn [emit ret bind Monad_M]. rewrite H2.
    cbn [emit ret bind Monad_M world]. rewrite Hdraw2, H3.
    cbn [emit ret bind Monad_M]. rewrite H4.
    cbn [emit ret bind Monad_M]. eexists. reflexivity.
  - cbn [take_rows rows].
    pose proof (Permutation_map (fun i => nth i (rows X) []) Hr) as Hm.
    rewrite <- HXr, <- HXlen, map_nth_seq in Hm. exact Hm.
  - cbn [take_cols rows].
    induction Hrows as [|row l Hrow _ IH]; cbn [map]; constructor.
    + split; [reflexivity|].
      pose proof (Permutation_map (fun j => nth j row 0%R) Hf) as Hm.
      rewrite <- Hrow, map_nth_seq in Hm. exact Hm.
    + exact IH.
  - intros x t Hx.
    rewrite Forall_forall in Hrows. specialize (Hrows x Hx).
    rewrite column_take_rows. apply inner_permuted.
    + unfold column. rewrite length_map. congruence.
    + rewrite Hrows. exact Hf.
Qed.

(** What [assemble] returns, when it returns. *)
Lemma assemble_returned (a : regression_args) (st st' : state) pre :
  run (assemble a) st = (Ok pre, st') -> assembled_post a pre.
Proof.
  intros Hrun.
  apply (triple_returns True (assemble a)
           (fun pre _ => assembled_post a pre) st pre st'); [|exact Hrun].
  apply triple_assemble; [|left; exact I].
  intros o s H. exact H.
Qed.

(** With an effective rank and more features than samples,
    [make_regression] never returns: the synthesised matrix has too few
    columns for the layout requested of it. *)
Lemma make_regression_wide_low_rank (a : regression_args) (st st' : state) out :
  effective_rank a <> None ->
  n_samples a < n_features a ->
  run (make_regression a) st <> (Ok out, st').
Proof.
  intros Her Hlt Hrun. unfold make_regression, run in Hrun.
  cbn [bind Monad_M] in Hrun.
  destruct (assemble a st) as [[pre|e] st1] eqn:Hpre; [|discriminate].
  apply assemble_returned in Hpre.
  destruct Hpre as (_ & _ & Hwide & _). specialize (Hwide Her). lia.
Qed.

(** C7, with the rows of [X] taken before the columns are permuted.  Let
    [X], [y] and the coefficients be the arrays built before the shuffle.
    When shuffle is requested, [make_regression] draws one permutation [r]
    of [[0, n_samples)] and then a second one [f] of [[0, n_features)] from
    NumPy's global generator; it returns the rows [r] of [X] with their
    columns [f], the rows [r] of [y], and (when requested) the rows [f] of the
    coefficients.  Consequently the multiset of rows of [X] is unchanged by
    the row permutation; each row of the returned [X] is the corresponding
    row re-ordered by [f]; and the inner product of a row of [X] with a column
    of the coefficients is unchanged when both are re-ordered by [f]. *)
Theorem make_regression_shuffle (a : regression_args) (st st1 : state)
    (X y gt : matrix) :
  shuffle a = true ->
  run (assemble a) st = (Ok (X, y, gt), st1) ->
  let draw1 := np_permutation (world st1) (Z.to_nat (n_samples a)) in
  let draw2 := np_permutation (snd draw1) (Z.to_nat (n_features a)) in
  let r := fst draw1 in
  let f := fst draw2 in
  Permutation r (seq 0 (Z.to_nat (n_samples a))) /\
  Permutation f (seq 0 (Z.to_nat (n_features a))) /\
  (exists st',
      run (make_regression a) st
      = (Ok (take_cols f (take_rows r X),
             squeezed (take_rows r y),
             if coef a then Some (squeezed (take_rows f gt)) else None), st')) /\
  Permutation (rows (take_rows r X)) (rows X) /\
  Forall2 (fun row' row => row' = map (fun j => nth j row 0%R) f /\
                           Permutation row' row)
    (rows (take_cols f (take_rows r X))) (rows (take_rows r X)) /\
  (forall x t,
      In x (rows (take_rows r X)) ->
      inner (map (fun j => nth j x 0%R) f) (column t (take_rows f gt))
      = inner x (column t gt)).
Proof.
  intros Hsh Hrun.
  pose proof (assemble_returned a st st1 _ Hrun) as Hpre.
  unfold assembled_post, shape in Hpre. cbn [fst snd] in Hpre.
  destruct Hpre as (Hns & Hnf & _ & HXwf & HXs & Hywf & Hys & Hgwf & Hgs & _).
  injection HXs as HXr HXc. injection Hys as Hyr _. injection Hgs as Hgr _.
  pose proof (shuffle_step_run (n_samples a) (n_features a) X y gt st1
                HXwf Hgwf HXr Hyr HXc Hgr) as Hstep.
  cbv zeta in *.
  destruct Hstep as (Hr & Hf & [st2 Hstep] & Hperm & Hrows & Hinner).
  split; [exact Hr|]. split; [exact Hf|].
  split; [|split; [exact Hperm | split; [exact Hrows | exact Hinner]]].
  unfold make_regression, run in *. cbn [bind Monad_M].
  rewrite Hrun. cbn [fst snd]. rewrite Hsh, Hstep. cbn [fst snd].
  destruct (coef a); cbn; eexists; reflexivity.
Qed.

End Claims.

(** ** Runs on the concrete engine *)

Ltac evaluate_regression :=
  unfold make_regression, assemble, small_args; cbn [noise];
  let H := fresh in
  destruct (Rlt_dec 0.0 0.0) as [H|H]; [exfalso; lra|];
  cbv -[IZR Q2R Rmult Rplus Rminus Ropp Rinv].



Lemma coefficients_zero_rows_witness :
  exists X y c st',
    run (E := Counter.engine) (make_regression (small_args 4 8 3 1 false))
      Counter.initial = (Ok (X, y, c), st') /\
    exists g,
      c = Some g /\
      List.length (nd_data g) = 8%nat /\
      skipn 3 (nd_data g) = repeat 0%R 5.
Proof.
  eassert (Hrun : run (E := Counter.engine)
                    (make_regression (small_args 4 8 3 1 false))
                    Counter.initial = (Ok (_, _, _), _)).
  { evaluate_regression. reflexivity. }
  do 4 eexists. split; [exact Hrun|].
  exact (coefficients_zero_rows (E := Counter.engine)
           (small_args 4 8 3 1 false) _ _ _ _ _
           eq_refl eq_refl eq_refl Hrun).
Defined.

(** C6 as stated fails under shuffle: with [n_features = 8],
    [n_informative = 3] and shuffle requested, the last entry of the returned
    coefficients is an informative coefficient that the feature permutation
    moved there. *)
Lemma coefficients_moved_by_shuffle :
  exists X y g st',
    run (E := Counter.engine) (make_regression (small_args 2 8 3 1 true))
      Counter.initial = (Ok (X, y, Some g), st') /\
    skipn 3 (nd_data g) <> repeat 0%R 5.
Proof.
  do 4 eexists. split.
  - evaluate_regression. reflexivity.
  - cbn [nd_data skipn repeat]. intros H. injection H. intros. lra.
Qed.

Lemma make_regression_shuffle_witness :
  exists X y gt st1,
    run (E := Counter.engine) (assemble (small_args 2 2 1 1 true))
      Counter.initial = (Ok (X, y, gt), st1) /\
    let r := fst (np_permutation (Engine := Counter.engine) (world st1) 2%nat) in
    let f := fst (np_permutation (Engine := Counter.engine)
                    (snd (np_permutation (Engine := Counter.engine)
                            (world st1) 2%nat)) 2%nat) in
    Permutation r (seq 0 2) /\
    Permutation f (seq 0 2) /\
    (exists st',
        run (E := Counter.engine) (make_regression (small_args 2 2 1 1 true))
          Counter.initial
        = (Ok (take_cols f (take_rows r X), squeezed (take_rows r y),
               Some (squeezed (take_rows f gt))), st')) /\
    Permutation (rows (take_rows r X)) (rows X) /\
    Forall2 (fun row' row => row' = map (fun j => nth j row 0%R) f /\
                             Permutation row' row)
      (rows (take_cols f (take_rows r X))) (rows (take_rows r X)) /\
    (forall x t,
        In x (rows (take_rows r X)) ->
        inner (map (fun j => nth j x 0%R) f) (column t (take_rows f gt))
        = inner x (column t gt)).
Proof.
  eassert (Hrun : run (E := Counter.engine) (assemble (small_args 2 2 1 1 true))
                    Counter.initial = (Ok (_, _, _), _)).
  { unfold assemble, small_args. cbn [noise].
    destruct (Rlt_dec 0.0 0.0) as [H|H]; [exfalso; lra|].
    cbv -[IZR Q2R Rmult Rplus Rminus Ropp Rinv]. reflexivity. }
  do 4 eexists. split; [exact Hrun|].
  exact (make_regression_shuffle (E := Counter.engine)
           (small_args 2 2 1 1 true) _ _ _ _ _ eq_refl Hrun).
Defined.

(** C7 as stated fails for the rows of the returned [X]: the feature
    permutation re-orders the entries of every row, so the rows after the
    shuffle are not the rows before it. *)
Lemma shuffle_changes_rows :
  exists X y gt st1 X' y' c' st2,
    run (E := Counter.engine) (assemble (small_args 1 2 1 1 true))
      Counter.initial = (Ok (X, y, gt), st1) /\
    run (E := Counter.engine) (make_regression (small_args 1 2 1 1 true))
      Counter.initial = (Ok (X', y', c'), st2) /\
    ~ Permutation (rows X') (rows X).
Proof.
  do 8 eexists. split; [|split].
  - unfold assemble, small_args. cbn [noise].
    destruct (Rlt_dec 0.0 0.0) as [H|H]; [exfalso; lra|].
    cbv -[IZR Q2R Rmult Rplus Rminus Ropp Rinv]. reflexivity.
  - unfold make_regression, assemble, small_args. cbn [noise].
    destruct (Rlt_dec 0.0 0.0) as [H|H]; [exfalso; lra|].
    cbv -[IZR Q2R Rmult Rplus Rminus Ropp Rinv]. reflexivity.
  - cbn [rows]. intros H.
    apply Permutation_length_1 in H. injection H. intros. lra.
Qed.

(** C4, with shuffle.  Two calls with the same integer seed and the same
    parameters, one after the other in one process, return different [X]:
    the permutations come from NumPy's global generator, which the first
    call has advanced. *)
Theorem shuffle_not_reproducible :
  exists X1 y1 c1 st1 X2 y2 c2 st2,
    run (E := Counter.engine) (make_regression (small_args 3 2 1 1 true))
      Counter.initial = (Ok (X1, y1, c1), st1) /\
    run (E := Counter.engine) (make_regression (small_args 3 2 1 1 true))
      st1 = (Ok (X2, y2, c2), st2) /\
    X1 <> X2.
Proof.
  do 8 eexists. split; [|split].
  - evaluate_regression. reflexivity.
  - evaluate_regression. reflexivity.
  - intros H. injection H. intros. lra.
Qed.

(** Without shuffle the same two consecutive calls agree: the seeded stream
    is created afresh by each call. *)
Example seeded_calls_agree_without_shuffle :
  exists out st1 st2,
    run (E := Counter.engine) (make_regression (small_args 3 2 1 1 false))
      Counter.initial = (Ok out, st1) /\
    run (E := Counter.engine) (make_regression (small_args 3 2 1 1 false))
      st1 = (Ok out, st2).
Proof.
  do 3 eexists. split.
  - evaluate_regression. reflexivity.
  - evaluate_regression. reflexivity.
Qed.

(** The synthesiser on the concrete engine, with no more features than
    samples: the documented shape. *)
Example make_low_rank_matrix_3_2 :
  exists X st',
    run (E := Counter.engine)
      (make_low_rank_matrix 3 2 10 0.5 (PyInt 0) 1 None "float32")
      Counter.initial = (Ok X, st') /\
    shape X = (3%nat, 2%nat).
Proof.
  apply (make_low_rank_matrix_tall (E := Counter.engine)); [|lia].
  unfold low_rank_valid. cbn. unfold two_53, seed_max. repeat split; lia.
Qed.

(** The call with the default parameters and a seed in range returns, on
    every engine, [X] of shape [(100, 100)] and [y] of shape [(100,)]. *)
Example make_regression_defaults {E : Engine} (seed : Z) (st : state) :
  0 <= seed <= seed_max ->
  exists X y st',
    run (make_regression (default_args seed)) st = (Ok (X, y, None), st') /\
    shape X = (100%nat, 100%nat) /\
    nd_shape y = [100%nat].
Proof.
  intros Hseed.
  destruct (make_regression_returns (default_args seed) st)
    as ([[X y] c] & st' & Hrun & _ & HX & Hy & _ & Hc).
  { unfold regression_valid. cbn. unfold two_53.
    repeat split; try lia; left; reflexivity. }
  cbn [fst snd] in *. destruct c as [g|]; [destruct Hc; discriminate|].
  exists X, y, st'. split; [exact Hrun|]. split; [exact HX | exact Hy].
Qed.

(** ** Reproducibility with an integer seed *)

Section Reproducibility.

Context {E : Engine}.

Lemma oblivious_ret {A : Type} (a : A) : oblivious (ret a).
Proof. intros st st'. split; reflexivity. Qed.

Lemma oblivious_raise {A : Type} (e : exn) : oblivious (raise (A := A) e).
Proof. intros st st'. split; reflexivity. Qed.

Lemma oblivious_lift {A : Type} (r : result A) : oblivious (lift r).
Proof. intros st st'. split; reflexivity. Qed.

Lemma oblivious_emit (n : node) : oblivious (emit n).
Proof. intros st st'. split; reflexivity. Qed.

Lemma oblivious_bind {A B : Type} (c : M A) (f : A -> M B) :
  oblivious c -> (forall a, oblivious (f a)) -> oblivious (bind c f).
Proof.
  intros Hc Hf st st'. destruct (Hc st st') as [H1 H2].
  destruct (Hc st' st') as [_ H2'].
  unfold run in *. cbn [bind Monad_M].
  destruct (c st) as [[a|e] s], (c st') as [[a'|e'] s'];
    cbn [fst snd] in *; try discriminate.
  - injection H1 as <-. destruct (Hf a s s') as [H3 H4].
    unfold run in H3, H4. split; [exact H3 | congruence].
  - injection H1 as <-. split; [reflexivity | assumption].
Qed.

Ltac oblivious_tac :=
  repeat first
    [ apply oblivious_ret
    | apply oblivious_raise
    | apply oblivious_lift
    | apply oblivious_emit
    | apply oblivious_bind; [|intros ?]
    | match goal with
      | |- oblivious (if ?b then _ else _) => destruct b
      | |- oblivious (match ?o with Some _ => _ | None => _ end) => destruct o
      end ].

Lemma agree_oblivious {A : Type} (r1 r2 : nat) (c : M A) :
  oblivious c -> agree r1 r2 c c.
Proof.
  intros Hc st1 st2 Hs. destruct (Hc st1 st2) as [H1 H2].
  destruct (Hc st2 st2) as [_ H2'].
  split; [exact H1|]. unfold same_stream in *. congruence.
Qed.

Lemma agree_bind {A B : Type} (r1 r2 : nat) (c1 c2 : M A) (f1 f2 : A -> M B) :
  agree r1 r2 c1 c2 ->
  (forall a, agree r1 r2 (f1 a) (f2 a)) ->
  agree r1 r2 (bind c1 f1) (bind c2 f2).
Proof.
  intros Hc Hf st1 st2 Hs. destruct (Hc st1 st2 Hs) as [H1 H2].
  unfold run in *. cbn [bind Monad_M].
  destruct (c1 st1) as [[a1|e1] s1], (c2 st2) as [[a2|e2] s2];
    cbn [fst snd] in *; try discriminate.
  - injection H1 as <-. apply Hf. exact H2.
  - injection H1 as <-. split; [reflexivity | assumption].
Qed.

Lemma agree_draw (r1 r2 : nat) g : agree r1 r2 (draw r1 g) (draw r2 g).
Proof.
  intros st1 st2 Hs. unfold same_stream in *. unfold run, draw.
  rewrite Hs. destruct (g (streams st2 r2)) as [f s]. cbn [fst snd streams].
  split; [reflexivity|]. unfold upd. rewrite !Nat.eqb_refl. reflexivity.
Qed.

Lemma agree_standard_normal (r1 r2 : nat) size ch dt :
  agree r1 r2 (standard_normal (PyDaskRandomState r1) size ch dt)
              (standard_normal (PyDaskRandomState r2) size ch dt).
Proof.
  unfold standard_normal.
  apply agree_bind; [apply agree_oblivious; unfold dim; oblivious_tac | intros nr].
  apply agree_bind; [apply agree_oblivious; unfold dim; oblivious_tac | intros nc].
  apply agree_bind;
    [apply agree_oblivious; unfold check_chunks; oblivious_tac | intros _].
  apply agree_bind; [apply agree_oblivious; oblivious_tac | intros _].
  apply agree_bind; [apply agree_draw | intros f].
  apply agree_oblivious. oblivious_tac.
Qed.

Lemma agree_normal (r1 r2 : nat) scale size dt :
  agree r1 r2 (normal (PyDaskRandomState r1) scale size dt)
              (normal (PyDaskRandomState r2) scale size dt).
Proof.
  unfold normal.
  apply agree_bind; [apply agree_oblivious; oblivious_tac | intros _].
  apply agree_bind; [apply agree_draw | intros f].
  apply agree_oblivious. oblivious_tac.
Qed.

Lemma agree_resolved {A : Type} (r1 r2 : nat) (f1 f2 : py_value -> M A) :
  agree r1 r2 (f1 (PyDaskRandomState r1)) (f2 (PyDaskRandomState r2)) ->
  agree r1 r2 (bind (create_rs_generator (PyDaskRandomState r1)) f1)
              (bind (create_rs_generator (PyDaskRandomState r2)) f2).
Proof. intros H st1 st2 Hs. exact (H st1 st2 Hs). Qed.

Ltac unfold_operations :=
  unfold linalg_qr, rechunk, check_chunks, from_array, mul_broadcast,
    scalar_mul, add_scalar, add, dot, getitem_cols_upto, getitem_rows,
    getitem_cols, concatenate, squeeze, default_samples_per_part.

Ltac agree_operation :=
  first
    [ apply agree_standard_normal
    | apply agree_normal
    | apply agree_oblivious; unfold_operations; solve [oblivious_tac] ].

Ltac agree_step :=
  first
    [ agree_operation
    | match goal with
      | |- agree _ _ (bind _ _) (bind _ _) => apply agree_bind; [|intros ?]
      | |- agree _ _ (if ?b then _ else _) _ => destruct b
      | |- agree _ _ (match ?o with Some _ => _ | None => _ end) _ =>
          destruct o
      end ].

Lemma agree_make_low_rank_matrix (r1 r2 : nat) ns nf er ts np nspp dt :
  agree r1 r2
    (make_low_rank_matrix ns nf er ts (PyDaskRandomState r1) np nspp dt)
    (make_low_rank_matrix ns nf er ts (PyDaskRandomState r2) np nspp dt).
Proof.
  unfold make_low_rank_matrix. apply agree_resolved.
  repeat agree_step.
Qed.

Lemma agree_assemble (r1 r2 : nat) (a : regression_args) :
  agree r1 r2 (assemble (with_random_state (PyDaskRandomState r1) a))
              (assemble (with_random_state (PyDaskRandomState r2) a)).
Proof.
  destruct a. unfold assemble, with_random_state.
  cbn [n_samples n_features n_informative n_targets bias effective_rank
       tail_strength noise shuffle coef random_state n_parts
       n_samples_per_part order dtype].
  apply agree_resolved.
  repeat first [apply agree_make_low_rank_matrix | agree_step].
Qed.

Lemma agree_make_regression (r1 r2 : nat) (a : regression_args) :
  shuffle a = false ->
  agree r1 r2 (make_regression (with_random_state (PyDaskRandomState r1) a))
              (make_regression (with_random_state (PyDaskRandomState r2) a)).
Proof.
  intros Hs. unfold make_regression.
  apply agree_bind; [apply agree_assemble | intros pre].
  replace (shuffle (with_random_state (PyDaskRandomState r1) a)) with false
    by (destruct a; cbn in *; congruence).
  replace (shuffle (with_random_state (PyDaskRandomState r2) a)) with false
    by (destruct a; cbn in *; congruence).
  replace (coef (with_random_state (PyDaskRandomState r2) a))
    with (coef (with_random_state (PyDaskRandomState r1) a))
    by (destruct a; reflexivity).
  apply agree_oblivious. unfold_operations. oblivious_tac.
Qed.

(** The state in which a call with the integer seed [z] leaves its fresh
    stream, before the first draw. *)
Lemma run_make_regression_seeded (a : regression_args) (z : Z) (st : state) :
  random_state a = PyInt z -> seed_ok (PyInt z) ->
  run (make_regression a) st
  = run (make_regression
           (with_random_state (PyDaskRandomState (next_ref st)) a))
      (State (upd (streams st) (next_ref st) (rs_seeded z))
         (S (next_ref st)) (world st) (graph st)).
Proof.
  intros Hz Hs. destruct a. cbn in Hz. subst.
  apply seed_in_range in Hs.
  unfold make_regression, assemble, with_random_state, run.
  cbn [bind Monad_M n_samples n_features n_informative n_targets bias
       effective_rank tail_strength noise shuffle coef random_state n_parts
       n_samples_per_part order dtype].
  unfold create_rs_generator. cbn [rs_type_of py_module py_type_name].
  cbn [String.eqb Ascii.eqb Bool.eqb orb dask_RandomState_seed].
  rewrite Hs. reflexivity.
Qed.

(** A call whose integer seed is out of range raises [ValueError], whatever
    the state of the process. *)
Lemma run_make_regression_seed_refused (a : regression_args) (st : state) :
  ~ seed_ok (random_state a) ->
  run (make_regression a) st = (Raise ValueError, st).
Proof.
  intros Hs. unfold make_regression, assemble, run. cbn [bind Monad_M].
  pose proof (create_rs_generator_seed_refused _ st Hs) as Hr.
  unfold run in Hr. rewrite Hr. reflexivity.
Qed.

(** X17. Without shuffle, a call with an integer seed is reproducible: from
    any two states of the process it has the same outcome, the same
    [(X, y, coefficients)] or the same exception. *)
Theorem make_regression_reproducible (a : regression_args) (z : Z)
    (st1 st2 : state) :
  random_state a = PyInt z ->
  shuffle a = false ->
  fst (run (make_regression a) st1) = fst (run (make_regression a) st2).
Proof.
  intros Hz Hs.
  destruct (seed_ok_dec (PyInt z)) as [Hok|Hno].
  - rewrite (run_make_regression_seeded a z st1 Hz Hok).
    rewrite (run_make_regression_seeded a z st2 Hz Hok).
    apply (agree_make_regression (next_ref st1) (next_ref st2) a Hs).
    unfold same_stream, upd. cbn [streams]. rewrite !Nat.eqb_refl. reflexivity.
  - rewrite <- Hz in Hno.
    rewrite !run_make_regression_seed_refused by exact Hno. reflexivity.
Qed.

End Reproducibility.

(** The resolver knows types by their names only: a [bool], which is an
    [int] for [isinstance], and a NumPy [RandomState] are both refused. *)
Example create_rs_generator_refuses_bool {E : Engine} (st : state) :
  run (create_rs_generator (PyObject None "bool")) st = (Raise ValueError, st) /\
  run (create_rs_generator
         (PyObject (Some "numpy.random.mtrand"%string) "RandomState")) st
  = (Raise ValueError, st).
Proof.
  split; apply create_rs_generator_rejects; cbn; intuition discriminate.
Qed.

(** * Further properties of the module *)

(** ** Partition sizing below [2^53] *)

(** Truncating and flooring division differ only where the quotient is
    negative, which [max(1, .)] hides. *)
Lemma max_1_quot_div_any (a b : Z) :
  b <> 0 -> Z.max 1 (Z.quot a b) = Z.max 1 (a / b).
Proof.
  intros Hb.
  destruct (Z_lt_le_dec a 0) as [Ha|Ha]; [|apply max_1_quot_div; assumption].
  destruct (Z_lt_le_dec 0 b) as [Hpos|Hneg].
  - assert (Z.quot a b <= 0).
    { replace a with (- - a) by lia. rewrite Z.quot_opp_l by lia.
      assert (0 <= Z.quot (- a) b) by (apply Z.quot_pos; lia). lia. }
    assert (a / b <= 0).
    { pose proof (Z.div_mod a b Hb). pose proof (Z.mod_pos_bound a b Hpos).
      nia. }
    lia.
  - rewrite <- (Z.quot_opp_opp a b) by lia.
    rewrite Z.quot_div_nonneg by lia.
    rewrite Z.div_opp_opp by lia. reflexivity.
Qed.

(** The function on every input with [n_parts <> 0] and [total_size] below
    [2^53] in magnitude, by the effective minimum [e]: the regular layout
    when [e <= total_size], one block otherwise. *)
Lemma generate_chunks_for_qr_cases (total_size min_size n_parts : Z) :
  n_parts <> 0 -> Z.abs total_size < two_53 ->
  let e := effective_min total_size min_size n_parts in
  1 <= e /\ min_size <= e /\
  (e <= total_size ->
   generate_chunks_for_qr total_size min_size n_parts =
     Ok (repeat e (Z.to_nat (total_size / e - 1)) ++ [e + total_size mod e]) /\
   1 <= total_size / e) /\
  (total_size < e ->
   generate_chunks_for_qr total_size min_size n_parts
   = Ok [e + total_size mod e]).
Proof.
  intros Hp Hsmall e.
  assert (He : 1 <= e /\ min_size <= e) by (subst e; unfold effective_min; lia).
  destruct He as [He1 He2]. split; [exact He1|]. split; [exact He2|].
  pose proof (generate_chunks_for_qr_eq total_size min_size n_parts Hp Hsmall)
    as Heq.
  cbv zeta in Heq. rewrite max_1_quot_div_any in Heq by assumption.
  fold (effective_min total_size min_size n_parts) in Heq. fold e in Heq.
  split.
  - intros Hle.
    assert (Hk : 1 <= total_size / e) by (apply Z.div_le_lower_bound; lia).
    split; [|exact Hk]. rewrite Heq.
    rewrite Z.quot_div_nonneg by lia. rewrite Z.max_r by lia.
    assert (Hrest : total_size mod (total_size / e * e) = total_size mod e).
    { pose proof (Z.div_mod total_size e ltac:(lia)) as Hdm.
      pose proof (Z.mod_pos_bound total_size e ltac:(lia)) as Hr.
      symmetry. apply (Z.mod_unique_pos total_size (total_size / e * e) 1); nia. }
    rewrite Hrest. reflexivity.
  - intros Hlt. rewrite Heq.
    assert (Hq : Z.quot total_size e <= 0).
    { destruct (Z_lt_le_dec total_size 0) as [Hn|Hn].
      - replace total_size with (- - total_size) by lia.
        rewrite Z.quot_opp_l by lia.
        assert (0 <= Z.quot (- total_size) e) by (apply Z.quot_pos; lia). lia.
      - rewrite Z.quot_small by lia. lia. }
    rewrite Z.max_l by lia.
    cbn [Z.sub Z.to_nat Z.opp Z.add Z.pos_sub repeat app].
    rewrite Z.mul_1_l. reflexivity.
Qed.

Lemma truediv_raises (a b : Z) (e : exn) :
  Py.truediv a b = Raise e ->
  (e = ZeroDivisionError /\ b = 0) \/ (e = OverflowError /\ b <> 0).
Proof.
  unfold Py.truediv. destruct (Z.eqb_spec b 0) as [Hb|Hb].
  - intros H. injection H as <-. left. split; [reflexivity | exact Hb].
  - destruct (a =? 0); [discriminate|]. cbv zeta.
    destruct (_ <=? _); [|discriminate].
    intros H. injection H as <-. right. split; [reflexivity | exact Hb].
Qed.

(** X1. [generate_chunks_for_qr] raises [ZeroDivisionError] exactly when
    [n_parts = 0]; with [n_parts <> 0] and [total_size] below [2^53] in
    magnitude it returns a layout, whatever the signs; and the only other
    exception it can raise is the [OverflowError] of a true division, which
    needs a [total_size] of at least [2^53] in magnitude. *)
Theorem generate_chunks_for_qr_raises (total_size min_size n_parts : Z) :
  (n_parts = 0 ->
   generate_chunks_for_qr total_size min_size n_parts
   = Raise ZeroDivisionError) /\
  (n_parts <> 0 -> Z.abs total_size < two_53 ->
   exists chunks,
     generate_chunks_for_qr total_size min_size n_parts = Ok chunks) /\
  (forall e,
      generate_chunks_for_qr total_size min_size n_parts = Raise e ->
      (e = ZeroDivisionError /\ n_parts = 0) \/
      (e = OverflowError /\ n_parts <> 0 /\ two_53 <= Z.abs total_size)).
Proof.
  split; [|split].
  - intros ->. reflexivity.
  - intros Hp Hsmall.
    rewrite generate_chunks_for_qr_eq by assumption. eexists. reflexivity.
  - intros e Hrun.
    destruct (Z.eq_dec n_parts 0) as [->|Hp].
    { left. injection Hrun as <-. split; reflexivity. }
    right.
    destruct (Z_lt_le_dec (Z.abs total_size) two_53) as [Hsmall|Hlarge].
    { rewrite generate_chunks_for_qr_eq in Hrun by assumption. discriminate. }
    split; [|split; assumption].
    unfold generate_chunks_for_qr in Hrun.
    destruct (Py.truediv total_size n_parts) as [q|e1] eqn:H1;
      cbn [bind Monad_result] in Hrun.
    2:{ injection Hrun as <-.
        destruct (truediv_raises _ _ _ H1) as [[_ H0]|[He _]];
          [contradiction | exact He]. }
    set (m := if min_size <? Z.max 1 (Py.int q)
              then Z.max 1 (Py.int q) else min_size) in *.
    assert (Hm : 1 <= m) by (subst m; destruct (Z.ltb_spec min_size (Z.max 1 (Py.int q))); lia).
    destruct (Py.truediv total_size m) as [q'|e2] eqn:H2;
      cbn [bind Monad_result] in Hrun.
    2:{ injection Hrun as <-.
        destruct (truediv_raises _ _ _ H2) as [[_ H0]|[He _]]; [lia | exact He]. }
    unfold Py.mod_ in Hrun. rewrite int_max_1 in Hrun.
    destruct (Z.eqb_spec (Z.max 1 (Py.int q') * m) 0) as [H0|_]; [nia|].
    discriminate Hrun.
Qed.

Lemma generate_chunks_for_qr_raises_witness :
  generate_chunks_for_qr 5 1 0 = Raise ZeroDivisionError /\
  (exists chunks, generate_chunks_for_qr (-5) 3 (-2) = Ok chunks).
Proof.
  split.
  - apply (proj1 (generate_chunks_for_qr_raises 5 1 0)). reflexivity.
  - apply (proj1 (proj2 (generate_chunks_for_qr_raises (-5) 3 (-2))));
      [discriminate | reflexivity].
Defined.

(** Beyond the range of floats the true division raises. *)
Example generate_chunks_for_qr_overflow :
  generate_chunks_for_qr (10 ^ 400) 1 1 = Raise OverflowError.
Proof. vm_compute. reflexivity. Qed.

(** X2. For [total_size] below [2^53] in magnitude, whatever the other
    inputs, a layout returned by [generate_chunks_for_qr] is not empty and
    none of its blocks is below the effective minimum, which is at least [1]
    and at least the requested minimum block size: the function lowers the
    number of blocks, never their size. *)
Theorem generate_chunks_for_qr_floor (total_size min_size n_parts : Z)
    (chunks : list Z) :
  Z.abs total_size < two_53 ->
  generate_chunks_for_qr total_size min_size n_parts = Ok chunks ->
  chunks <> [] /\
  Forall (fun c => effective_min total_size min_size n_parts <= c) chunks /\
  1 <= effective_min total_size min_size n_parts /\
  min_size <= effective_min total_size min_size n_parts.
Proof.
  intros Hsmall Hrun.
  assert (Hp : n_parts <> 0).
  { intros ->. discriminate Hrun. }
  destruct (generate_chunks_for_qr_cases total_size min_size n_parts Hp Hsmall)
    as (He1 & He2 & Hreg & Hdeg).
  set (e := effective_min total_size min_size n_parts) in *.
  pose proof (Z.mod_pos_bound total_size e ltac:(lia)) as Hr.
  destruct (Z_lt_le_dec total_size e) as [Hlt|Hle].
  - rewrite (Hdeg Hlt) in Hrun. injection Hrun as <-.
    split; [discriminate|]. split; [|split; assumption].
    constructor; [lia | constructor].
  - destruct (Hreg Hle) as [Heq _]. rewrite Heq in Hrun. injection Hrun as <-.
    split; [|split; [|split; assumption]].
    + intros Habs. apply app_eq_nil in Habs. destruct Habs; discriminate.
    + apply Forall_app. split.
      * apply Forall_forall. intros c Hc. apply repeat_spec in Hc. lia.
      * constructor; [lia | constructor].
Qed.

Lemma generate_chunks_for_qr_floor_witness :
  [5 + 3] <> [] /\
  Forall (fun c => effective_min 3 5 2 <= c) [5 + 3] /\
  1 <= effective_min 3 5 2 /\
  5 <= effective_min 3 5 2.
Proof.
  apply (generate_chunks_for_qr_floor 3 5 2 [5 + 3]); reflexivity.
Defined.

(** X3. For [total_size] below [2^53] in magnitude, a returned layout adds
    up to [total_size] exactly when [total_size] is at least the effective
    minimum; in every other case the blocks add up to more than
    [total_size]. *)
Theorem generate_chunks_for_qr_exact (total_size min_size n_parts : Z)
    (chunks : list Z) :
  Z.abs total_size < two_53 ->
  generate_chunks_for_qr total_size min_size n_parts = Ok chunks ->
  (Py.sum chunks = total_size <->
   effective_min total_size min_size n_parts <= total_size) /\
  total_size <= Py.sum chunks.
Proof.
  intros Hsmall Hrun.
  assert (Hp : n_parts <> 0).
  { intros ->. discriminate Hrun. }
  destruct (generate_chunks_for_qr_cases total_size min_size n_parts Hp Hsmall)
    as (He1 & He2 & Hreg & Hdeg).
  set (e := effective_min total_size min_size n_parts) in *.
  pose proof (Z.mod_pos_bound total_size e ltac:(lia)) as Hr.
  destruct (Z_lt_le_dec total_size e) as [Hlt|Hle].
  - rewrite (Hdeg Hlt) in Hrun. injection Hrun as <-.
    cbn [Py.sum fold_right]. split; [split|]; lia.
  - destruct (Hreg Hle) as [Heq Hk]. rewrite Heq in Hrun. injection Hrun as <-.
    rewrite sum_app, sum_repeat, Z2Nat.id by lia. cbn [Py.sum fold_right].
    pose proof (Z.div_mod total_size e ltac:(lia)) as Hdm.
    split; [split|]; lia.
Qed.

Lemma generate_chunks_for_qr_exact_witness :
  (Py.sum [33; 33; 34] = 100 <-> effective_min 100 30 3 <= 100) /\
  100 <= Py.sum [33; 33; 34].
Proof.
  apply (generate_chunks_for_qr_exact 100 30 3 [33; 33; 34]); reflexivity.
Defined.

(** X4. When [total_size], below [2^53], is at least the effective minimum
    [e], the layout has [total_size // e] blocks; all but the last are
    exactly [e], and the last, which carries the remainder, is at least [e]
    and below [2 * e]. *)
Theorem generate_chunks_for_qr_blocks (total_size min_size n_parts : Z) :
  n_parts <> 0 -> total_size < two_53 ->
  effective_min total_size min_size n_parts <= total_size ->
  let e := effective_min total_size min_size n_parts in
  exists chunks,
    generate_chunks_for_qr total_size min_size n_parts = Ok chunks /\
    Z.of_nat (List.length chunks) = total_size / e /\
    removelast chunks = repeat e (List.length chunks - 1) /\
    e <= last chunks 0 < 2 * e.
Proof.
  intros Hp Hsmall Hle e.
  assert (He0 : 1 <= effective_min total_size min_size n_parts)
    by (unfold effective_min; lia).
  destruct (generate_chunks_for_qr_cases total_size min_size n_parts Hp
              ltac:(lia)) as (He1 & He2 & Hreg & _).
  fold e in He1, He2, Hreg. destruct (Hreg Hle) as [Heq Hk].
  pose proof (Z.mod_pos_bound total_size e ltac:(lia)) as Hr.
  eexists. split; [exact Heq|].
  rewrite length_app, repeat_length. cbn [List.length].
  split; [lia|]. split.
  - rewrite removelast_last. f_equal. lia.
  - rewrite last_last. lia.
Qed.

Lemma generate_chunks_for_qr_blocks_witness :
  exists chunks,
    generate_chunks_for_qr 100 30 3 = Ok chunks /\
    Z.of_nat (List.length chunks) = 100 / effective_min 100 30 3 /\
    removelast chunks = repeat (effective_min 100 30 3) (List.length chunks - 1) /\
    effective_min 100 30 3 <= last chunks 0 < 2 * effective_min 100 30 3.
Proof.
  apply (generate_chunks_for_qr_blocks 100 30 3);
    [lia | reflexivity | vm_compute; discriminate].
Defined.

(** X5. The number of blocks against the requested number of parts, for
    [1 <= n_parts <= total_size < 2^53]: a minimum block size of at most
    [total_size // n_parts] gives at least [n_parts] blocks, and a larger one
    (up to [total_size]) gives fewer than [n_parts]. *)
Theorem generate_chunks_for_qr_part_count (total_size min_size n_parts : Z) :
  1 <= n_parts <= total_size -> total_size < two_53 ->
  min_size <= total_size ->
  exists chunks,
    generate_chunks_for_qr total_size min_size n_parts = Ok chunks /\
    (min_size <= total_size / n_parts ->
     n_parts <= Z.of_nat (List.length chunks)) /\
    (total_size / n_parts < min_size ->
     Z.of_nat (List.length chunks) < n_parts).
Proof.
  intros Hp Hbound Hm.
  destruct (generate_chunks_for_qr_cases total_size min_size n_parts
              ltac:(lia) ltac:(lia)) as (He1 & He2 & Hreg & _).
  clear Hbound.
  set (e := effective_min total_size min_size n_parts) in *.
  assert (Hq : 1 <= total_size / n_parts <= total_size).
  { split; [apply Z.div_le_lower_bound; lia|].
    apply Z.div_le_upper_bound; nia. }
  assert (Hle : e <= total_size) by (subst e; unfold effective_min; lia).
  destruct (Hreg Hle) as [Heq Hk].
  eexists. split; [exact Heq|].
  rewrite length_app, repeat_length. cbn [List.length].
  replace (Z.of_nat (Z.to_nat (total_size / e - 1) + 1)) with (total_size / e)
    by lia.
  pose proof (Z.div_mod total_size n_parts ltac:(lia)) as Hdm.
  pose proof (Z.mod_pos_bound total_size n_parts ltac:(lia)) as Hr.
  split.
  - intros Hsmall.
    assert (e = total_size / n_parts) by (subst e; unfold effective_min; lia).
    apply Z.div_le_lower_bound; nia.
  - intros Hlarge.
    assert (e = min_size) by (subst e; unfold effective_min; lia).
    apply Z.div_lt_upper_bound; nia.
Qed.

Lemma generate_chunks_for_qr_part_count_witness :
  exists chunks,
    generate_chunks_for_qr 100 30 5 = Ok chunks /\
    (30 <= 100 / 5 -> 5 <= Z.of_nat (List.length chunks)) /\
    (100 / 5 < 30 -> Z.of_nat (List.length chunks) < 5).
Proof.
  apply (generate_chunks_for_qr_part_count 100 30 5); unfold two_53; lia.
Defined.

(** X6. The two layouts [make_low_rank_matrix] asks for, on positive
    extents below [2^53] and a positive part count, with
    [n = min(n_samples, n_features)]: the rows
    of the first draw and the columns of the second are cut into blocks of at
    least [n] that add up to the extent, and the axis whose extent is [n]
    itself is left in one block. *)
Theorem make_low_rank_matrix_layouts (n_samples n_features n_parts : Z) :
  1 <= n_samples < two_53 -> 1 <= n_features < two_53 -> 1 <= n_parts ->
  let n := Z.min n_samples n_features in
  exists ch1 ch2,
    generate_chunks_for_qr n_samples n n_parts = Ok ch1 /\
    generate_chunks_for_qr n_features n n_parts = Ok ch2 /\
    Py.sum ch1 = n_samples /\ Py.sum ch2 = n_features /\
    Forall (fun c => n <= c) ch1 /\ Forall (fun c => n <= c) ch2 /\
    (n_features <= n_samples -> ch2 = [n_features]) /\
    (n_samples <= n_features -> ch1 = [n_samples]).
Proof.
  intros Hs Hf Hp n.
  assert (Hside : forall t, 1 <= t < two_53 -> n <= t ->
            exists ch,
              generate_chunks_for_qr t n n_parts = Ok ch /\
              Py.sum ch = t /\ Forall (fun c => n <= c) ch /\
              (t = n -> ch = [t])).
  { intros t Ht Hn.
    destruct (generate_chunks_for_qr_cases t n n_parts ltac:(lia) ltac:(lia))
      as (He1 & He2 & Hreg & _).
    set (e := effective_min t n n_parts) in *.
    assert (Hq : t / n_parts <= t) by (apply Z.div_le_upper_bound; nia).
    assert (Hle : e <= t) by (subst e; unfold effective_min; lia).
    destruct (Hreg Hle) as [Heq Hk].
    pose proof (Z.mod_pos_bound t e ltac:(lia)) as Hr.
    pose proof (Z.div_mod t e ltac:(lia)) as Hdm.
    eexists. split; [exact Heq|]. split; [|split].
    - rewrite sum_app, sum_repeat, Z2Nat.id by lia. cbn [Py.sum fold_right].
      lia.
    - apply Forall_app. split.
      + apply Forall_forall. intros c Hc. apply repeat_spec in Hc. lia.
      + constructor; [lia | constructor].
    - intros Htn. assert (Het : e = t) by lia.
      rewrite Het, Z.div_same, Z.mod_same by lia. cbn. f_equal. lia. }
  destruct (Hside n_samples Hs ltac:(subst n; lia)) as (ch1 & H1 & S1 & F1 & E1).
  destruct (Hside n_features Hf ltac:(subst n; lia)) as (ch2 & H2 & S2 & F2 & E2).
  exists ch1, ch2. repeat (split; [assumption|]). split.
  - intros Hle. apply E2. subst n. lia.
  - intros Hle. apply E1. subst n. lia.
Qed.

Lemma make_low_rank_matrix_layouts_witness :
  exists ch1 ch2,
    generate_chunks_for_qr 100 (Z.min 100 30) 3 = Ok ch1 /\
    generate_chunks_for_qr 30 (Z.min 100 30) 3 = Ok ch2 /\
    Py.sum ch1 = 100 /\ Py.sum ch2 = 30 /\
    Forall (fun c => Z.min 100 30 <= c) ch1 /\
    Forall (fun c => Z.min 100 30 <= c) ch2 /\
    (30 <= 100 -> ch2 = [30]) /\
    (100 <= 30 -> ch1 = [100]).
Proof.
  apply (make_low_rank_matrix_layouts 100 30 3); unfold two_53; lia.
Defined.

(** ** The singular profile: range and monotonicity *)

Lemma exp_le (x y : R) : (x <= y)%R -> (exp x <= exp y)%R.
Proof.
  intros [H|H]; [left; apply exp_increasing; exact H | right; rewrite H; reflexivity].
Qed.

Lemma singular_profile_nth (n : Z) (effective_rank tail_strength : R) (i : nat) :
  (i < Z.to_nat n)%nat ->
  nth i (singular_profile n effective_rank tail_strength) 0%R
  = ((1 - tail_strength) * exp (-1.0 * (INR i / effective_rank) ^ 2) +
     tail_strength * exp (-0.1 * (INR i / effective_rank)))%R.
Proof.
  intros Hi. rewrite singular_profile_eq.
  set (F := fun k : nat => _).
  rewrite (nth_indep _ 0%R (F 0%nat)) by (rewrite length_map, length_seq; exact Hi).
  rewrite map_nth, seq_nth by exact Hi. reflexivity.
Qed.

Lemma singular_index_nonneg (effective_rank : R) (i : nat) :
  (0 < effective_rank)%R -> (0 <= INR i / effective_rank)%R.
Proof.
  intros Her. apply Rmult_le_pos; [apply pos_INR|].
  left. apply Rinv_0_lt_compat. exact Her.
Qed.

(** X7. For [effective_rank > 0] and [tail_strength] in [[0, 1]], the
    singular profile starts at exactly [1] and every entry is positive and
    at most [1]. *)
Theorem singular_profile_range (n : Z) (effective_rank tail_strength : R)
    (i : nat) :
  (0 < effective_rank)%R ->
  (0 <= tail_strength <= 1)%R ->
  (i < Z.to_nat n)%nat ->
  nth 0 (singular_profile n effective_rank tail_strength) 0%R = 1%R /\
  (0 < nth i (singular_profile n effective_rank tail_strength) 0%R <= 1)%R.
Proof.
  intros Her Hts Hi. split.
  - rewrite singular_profile_nth by lia. cbn [INR].
    replace (-1.0 * (0 / effective_rank) ^ 2)%R with 0%R by (cbn [pow]; lra).
    replace (-0.1 * (0 / effective_rank))%R with 0%R by lra.
    rewrite exp_0. lra.
  - rewrite singular_profile_nth by exact Hi.
    pose proof (singular_index_nonneg effective_rank i Her) as Ht.
    set (t := (INR i / effective_rank)%R) in *.
    pose proof (pow2_ge_0 t) as Ht2.
    pose proof (exp_pos (-1.0 * t ^ 2)) as P1.
    pose proof (exp_pos (-0.1 * t)) as P2.
    assert (L1 : (exp (-1.0 * t ^ 2) <= 1)%R).
    { rewrite <- exp_0. apply exp_le. lra. }
    assert (L2 : (exp (-0.1 * t) <= 1)%R).
    { rewrite <- exp_0. apply exp_le. lra. }
    split; nra.
Qed.

Lemma singular_profile_range_witness :
  nth 0 (singular_profile 3 10 0.5) 0%R = 1%R /\
  (0 < nth 2 (singular_profile 3 10 0.5) 0%R <= 1)%R.
Proof.
  apply (singular_profile_range 3 10 0.5 2); [lra | lra | cbn; lia].
Defined.

(** X8. For [effective_rank > 0] and [tail_strength] in [[0, 1]], the
    singular profile never increases: an entry is at most every entry before
    it. *)
Theorem singular_profile_decreasing (n : Z) (effective_rank tail_strength : R)
    (i j : nat) :
  (0 < effective_rank)%R ->
  (0 <= tail_strength <= 1)%R ->
  (i <= j)%nat -> (j < Z.to_nat n)%nat ->
  (nth j (singular_profile n effective_rank tail_strength) 0 <=
   nth i (singular_profile n effective_rank tail_strength) 0)%R.
Proof.
  intros Her Hts Hij Hj.
  rewrite !singular_profile_nth by lia.
  pose proof (singular_index_nonneg effective_rank i Her) as Hi0.
  assert (Hle : (INR i / effective_rank <= INR j / effective_rank)%R).
  { apply Rmult_le_compat_r; [|apply le_INR; exact Hij].
    left. apply Rinv_0_lt_compat. exact Her. }
  set (ti := (INR i / effective_rank)%R) in *.
  set (tj := (INR j / effective_rank)%R) in *.
  assert (Hsq : (ti ^ 2 <= tj ^ 2)%R) by (apply pow_incr; lra).
  apply Rplus_le_compat; apply Rmult_le_compat_l; try lra; apply exp_le; lra.
Qed.

Lemma singular_profile_decreasing_witness :
  (nth 2 (singular_profile 3 10 0.5) 0 <= nth 1 (singular_profile 3 10 0.5) 0)%R.
Proof.
  apply (singular_profile_decreasing 3 10 0.5 1 2); [lra | lra | lia | cbn; lia].
Defined.

(** ** The resolver, the part count and the synthesiser *)

Section Further.

Context {E : Engine}.

Lemma run_bind_ok {A B : Type} (c : M A) (f : A -> M B) st a st' :
  run c st = (Ok a, st') -> run (bind c f) st = run (f a) st'.
Proof. unfold run. cbn [bind Monad_M]. intros ->. reflexivity. Qed.

Lemma run_bind_raise {A B : Type} (c : M A) (f : A -> M B) st e st' :
  run c st = (Raise e, st') -> run (bind c f) st = (Raise e, st').
Proof. unfold run. cbn [bind Monad_M]. intros ->. reflexivity. Qed.

(** X9. What [create_rs_generator] returns is a fixed point of it: resolved
    again, in the state the first resolution left, it comes back as it is and
    nothing changes, so that [make_regression] and the synthesiser it calls
    draw from one and the same stream.  The first resolution records no node
    and leaves every stream that existed before as it was. *)
Theorem create_rs_generator_idempotent (v rs : py_value) (st st' : state) :
  run (create_rs_generator v) st = (Ok rs, st') ->
  run (create_rs_generator rs) st' = (Ok rs, st') /\
  graph st' = graph st /\
  (forall r, r <> next_ref st -> streams st' r = streams st r).
Proof.
  intros Hrun. unfold create_rs_generator, run in Hrun. cbv zeta in Hrun.
  assert (Hfresh : forall init,
            new_stream init st = (Ok rs, st') ->
            run (create_rs_generator rs) st' = (Ok rs, st') /\
            graph st' = graph st /\
            (forall r, r <> next_ref st -> streams st' r = streams st r)).
  { intros init H. unfold new_stream in H. destruct (init (world st)) as [s w].
    injection H as <- <-. split; [reflexivity|]. split; [reflexivity|].
    intros r Hr. cbn [streams]. unfold upd.
    apply Nat.eqb_neq in Hr. rewrite Hr. reflexivity. }
  destruct ((rs_type_of v =? "NoneType") || (rs_type_of v =? "int"))%string
    eqn:H1.
  { unfold dask_RandomState_seed in Hrun.
    destruct v as [|z| | |]; try exact (Hfresh _ Hrun).
    destruct ((0 <=? z) && (z <=? seed_max));
      [exact (Hfresh _ Hrun) | discriminate Hrun]. }
  destruct (rs_type_of v =? "cupy.random.generator.RandomState")%string
    eqn:H2; [exact (Hfresh _ Hrun)|].
  destruct (rs_type_of v =? "dask.array.random.RandomState")%string
    eqn:H3; [|discriminate].
  injection Hrun as <- <-. split; [|split; reflexivity].
  unfold create_rs_generator, run. cbv zeta. rewrite H1, H2, H3. reflexivity.
Qed.

(** X10. With [n_parts = 0] and a random state of an accepted kind (an
    integer being a seed in [[0, 2^32 - 1]]), both entry points raise
    [ZeroDivisionError] ([make_regression] when no [n_samples_per_part] is
    given), and they do so before any node of the computation graph is
    recorded. *)
Theorem zero_parts_raise (v : py_value) (st : state) :
  accepted_kind v = true -> seed_ok v ->
  (forall ns nf er ts nspp dt,
      exists st',
        run (make_low_rank_matrix ns nf er ts v 0 nspp dt) st
        = (Raise ZeroDivisionError, st') /\
        graph st' = graph st) /\
  (forall a,
      n_parts a = 0 -> n_samples_per_part a = None ->
      exists st',
        run (make_regression (with_random_state v a)) st
        = (Raise ZeroDivisionError, st') /\
        graph st' = graph st).
Proof.
  intros Hk Hs.
  destruct (create_rs_generator_accepts v st Hk Hs) as (r & st1 & Hr & Hg).
  split.
  - intros. exists st1. split; [|exact Hg].
    unfold make_low_rank_matrix.
    rewrite (run_bind_ok _ _ _ _ _ Hr). reflexivity.
  - intros a Hp Hn. exists st1. split; [|exact Hg].
    unfold make_regression. apply run_bind_raise.
    unfold assemble. cbn [with_random_state random_state n_samples_per_part
                            n_parts n_samples].
    rewrite (run_bind_ok _ _ _ _ _ Hr). rewrite Hn, Hp. reflexivity.
Qed.

(** X11. When [n_samples_per_part] is given and there is no effective rank,
    [n_parts] has no effect: two calls that differ only in [n_parts], started
    in the same state of the process, have the same outcome. *)
Theorem make_regression_n_parts_unused (a : regression_args) (p c : Z)
    (st : state) :
  n_samples_per_part a = Some c -> effective_rank a = None ->
  run (make_regression (with_n_parts p a)) st = run (make_regression a) st.
Proof.
  intros Hc Her. destruct a. cbn [n_samples_per_part effective_rank] in Hc, Her.
  subst. reflexivity.
Qed.


(** The state in which the synthesiser called with the integer seed [z]
    leaves its fresh stream, before the first draw. *)
Lemma run_make_low_rank_matrix_seeded ns nf er ts z np nspp dt (st : state) :
  seed_ok (PyInt z) ->
  run (make_low_rank_matrix ns nf er ts (PyInt z) np nspp dt) st
  = run (make_low_rank_matrix ns nf er ts
           (PyDaskRandomState (next_ref st)) np nspp dt)
      (State (upd (streams st) (next_ref st) (rs_seeded z))
         (S (next_ref st)) (world st) (graph st)).
Proof.
  intros Hs. apply seed_in_range in Hs.
  unfold make_low_rank_matrix, run. cbn [bind Monad_M].
  unfold create_rs_generator. cbn [rs_type_of py_module py_type_name].
  cbn [String.eqb Ascii.eqb Bool.eqb orb dask_RandomState_seed].
  rewrite Hs. reflexivity.
Qed.

(** The synthesiser called with an integer seed out of range raises
    [ValueError], whatever the state of the process. *)
Lemma run_make_low_rank_matrix_seed_refused ns nf er ts v np nspp dt
    (st : state) :
  ~ seed_ok v ->
  run (make_low_rank_matrix ns nf er ts v np nspp dt) st
  = (Raise ValueError, st).
Proof.
  intros Hs. unfold make_low_rank_matrix.
  apply run_bind_raise, create_rs_generator_seed_refused, Hs.
Qed.

(** X13. [make_low_rank_matrix] with an integer seed is reproducible: from
    any two states of the process, the call has the same outcome, the same
    matrix or the same exception. *)
Theorem make_low_rank_matrix_reproducible ns nf er ts (z : Z) np nspp dt
    (st1 st2 : state) :
  fst (run (make_low_rank_matrix ns nf er ts (PyInt z) np nspp dt) st1)
  = fst (run (make_low_rank_matrix ns nf er ts (PyInt z) np nspp dt) st2).
Proof.
  destruct (seed_ok_dec (PyInt z)) as [Hok|Hno].
  - rewrite (run_make_low_rank_matrix_seeded ns nf er ts z np nspp dt st1 Hok).
    rewrite (run_make_low_rank_matrix_seeded ns nf er ts z np nspp dt st2 Hok).
    apply (agree_make_low_rank_matrix (next_ref st1) (next_ref st2)).
    unfold same_stream, upd. cbn [streams]. rewrite !Nat.eqb_refl.
    reflexivity.
  - rewrite !run_make_low_rank_matrix_seed_refused by exact Hno. reflexivity.
Qed.



End Further.

(** ** The linear model behind the targets *)

Lemma combine_firstn_l {A B : Type} (c : nat) (x : list A) (w : list B) :
  (List.length w <= c)%nat -> combine (firstn c x) w = combine x w.
Proof.
  revert c w. induction x as [|a x IH]; intros c w Hc.
  - rewrite firstn_nil. reflexivity.
  - destruct w as [|b w]; [destruct c; reflexivity|].
    destruct c as [|c]; [cbn in Hc; lia|].
    cbn [firstn combine]. f_equal. apply IH. cbn in Hc. lia.
Qed.

Lemma inner_firstn (c : nat) (x w : list R) :
  (List.length w <= c)%nat -> inner (firstn c x) w = inner x w.
Proof.
  intros Hc. unfold inner. rewrite combine_firstn_l by exact Hc. reflexivity.
Qed.

Lemma inner_cons (a b : R) (x w : list R) :
  inner (a :: x) (b :: w) = (a * b + inner x w)%R.
Proof. reflexivity. Qed.

Lemma inner_nil_r (x : list R) : inner x [] = 0%R.
Proof. destruct x; reflexivity. Qed.

Lemma inner_zero (x zs : list R) :
  Forall (fun z => z = 0%R) zs -> inner x zs = 0%R.
Proof.
  intros Hz. revert x. induction Hz as [|z zs Hz0 _ IH]; intros x.
  - apply inner_nil_r.
  - destruct x as [|a x]; [reflexivity|].
    rewrite inner_cons, IH, Hz0. lra.
Qed.

(** Coefficients that are zero add nothing to an inner product. *)
Lemma inner_app_zero (x w zs : list R) :
  Forall (fun z => z = 0%R) zs -> inner x (w ++ zs) = inner x w.
Proof.
  intros Hz. revert x. induction w as [|b w IH]; intros x.
  - cbn [app]. rewrite inner_zero by exact Hz. symmetry. apply inner_nil_r.
  - destruct x as [|a x]; [reflexivity|].
    rewrite <- app_comm_cons, !inner_cons, IH. reflexivity.
Qed.

Lemma nth_scaled_zero (j : nat) (row : list R) :
  nth j (map (fun x => 0.0 * x)%R row) 0%R = 0%R.
Proof.
  revert j. induction row as [|x row IH]; intros [|j]; cbn [map nth];
    try reflexivity; [lra | apply IH].
Qed.

Lemma column_scaled_zero (j r c : nat) (l : list (list R)) :
  Forall (fun z => z = 0%R)
    (column j (Matrix r c (map (map (fun x => 0.0 * x)%R) l))).
Proof.
  unfold column. cbn [rows]. rewrite map_map.
  apply Forall_forall. intros z Hz. apply in_map_iff in Hz.
  destruct Hz as (row & <- & _). apply nth_scaled_zero.
Qed.

Section LinearModel.

Context {E : Engine}.

(** Without noise, the targets built by [assemble] are those of the linear
    model with the coefficients it returns. *)
Lemma triple_assemble_linear (a : regression_args) (st : state) :
  triple True (assemble a)
    (fun pre _ =>
       (noise a <= 0.0)%R ->
       rows (snd (fst pre))
       = linear_targets (fst (fst pre)) (snd pre) (bias a)) st.
Proof.
  unfold assemble.
  set (ni := Z.min (n_features a) (n_informative a)).
  apply triple_bind, triple_create_rs_generator; [|intros; exact I].
  intros rs st1 _ _.
  apply triple_bind, triple_samples_per_part; [|intros; exact I].
  intros c _ _.
  eapply triple_seq with (P := fun _ _ => True).
  { destruct (effective_rank a) as [er|].
    - apply triple_bind, triple_make_low_rank_matrix; [|left; exact I].
      intros X st2 _ _ _ _ _. apply triple_rechunk; intros; exact I.
    - apply triple_standard_normal; intros; exact I. }
  intros X st2 _.
  apply triple_bind, triple_standard_normal; cbn [fst snd]; [|intros; exact I].
  intros r f st3 _ _ _ _ _.
  apply triple_bind, triple_scalar_mul. intros st4.
  pose proof (well_formed_map (fun x => 100.0 * x)%R _
                (well_formed_tabulate (Z.to_nat ni) (Z.to_nat (n_targets a)) f))
    as [Hglen _].
  set (g := Matrix (nrows (tabulate (Z.to_nat ni) (Z.to_nat (n_targets a)) f))
              (ncols (tabulate (Z.to_nat ni) (Z.to_nat (n_targets a)) f)) _)
    in *.
  apply triple_bind, triple_getitem_cols_upto. intros st5.
  apply triple_bind, triple_dot; [|intros; exact I].
  cbn [ncols nrows rows]. intros Hdot st6.
  apply triple_bind, triple_add_scalar. intros st7.
  cbn [nrows ncols rows].
  apply triple_bind, triple_rechunk; [|intros; exact I].
  intros _ _ st8.
  eapply triple_seq with
    (P := fun gt _ =>
            ncols gt = ncols g /\
            forall j, exists zs,
                Forall (fun z => z = 0%R) zs /\
                column j gt = column j g ++ zs).
  { destruct (ni =? n_features a).
    - apply triple_ret. split; [reflexivity|]. intros j. exists [].
      split; [constructor | rewrite app_nil_r; reflexivity].
    - apply triple_bind, triple_standard_normal; [|intros; exact I].
      intros r' f' st9 _ _ _ _ _.
      apply triple_bind, triple_scalar_mul. intros st10.
      apply triple_bind, triple_concatenate; [|intros; exact I].
      intros _ st11.
      apply triple_rechunk; [|intros; exact I].
      intros _ _ st12. split; [reflexivity|]. intros j.
      eexists. split; [|unfold column; cbn [rows]; rewrite map_app; reflexivity].
      apply (column_scaled_zero j 0 0). }
  intros gt st9 (Hgc & Hcol).
  destruct (Rlt_dec 0.0 (noise a)) as [Hn|Hn].
  - eapply triple_seq with (P := fun _ _ => True).
    { apply triple_bind, triple_normal; [|intros; exact I].
      intros. apply triple_add; intros; exact I. }
    intros y st10 _. apply triple_ret. cbn [fst snd]. intros Hno. lra.
  - apply triple_bind, triple_ret. apply triple_ret. cbn [fst snd rows].
    intros _. unfold linear_targets. rewrite !map_map. apply map_ext.
    intros row. rewrite map_map, Hgc. apply map_ext. intros j. f_equal.
    destruct (Hcol j) as (zs & Hz & ->). rewrite inner_app_zero by exact Hz.
    apply inner_firstn. unfold column. rewrite length_map, Hglen, Hdot. lia.
Qed.

Lemma assemble_linear (a : regression_args) (st st1 : state) X y gt :
  run (assemble a) st = (Ok (X, y, gt), st1) ->
  (noise a <= 0.0)%R ->
  rows y = linear_targets X gt (bias a).
Proof.
  intros Hrun.
  exact (triple_returns True (assemble a) _ st (X, y, gt) st1
           (triple_assemble_linear a st) Hrun).
Qed.

(** The linear model survives the shuffle: the rows of the targets follow
    the rows of [X], and the rows of the coefficients follow its columns. *)
Lemma linear_targets_shuffled (X y gt : matrix) (b : R) (r f : list nat) :
  well_formed X ->
  List.length (rows gt) = ncols X ->
  Permutation r (seq 0 (nrows X)) ->
  Permutation f (seq 0 (ncols X)) ->
  rows y = linear_targets X gt b ->
  rows (take_rows r y)
  = linear_targets (take_cols f (take_rows r X)) (take_rows f gt) b.
Proof.
  intros [HXlen HXrows] Hg Hr Hf Hy.
  unfold linear_targets. cbn [take_rows take_cols rows ncols].
  rewrite Hy. unfold linear_targets. rewrite !map_map.
  apply map_ext_in. intros i Hi.
  pose proof (Forall_lt_permutation _ _ Hr) as Hrlt.
  rewrite Forall_forall in Hrlt. specialize (Hrlt i Hi).
  set (F := fun row : list R => _).
  rewrite (nth_indep _ [] (F [])) by (rewrite length_map; lia).
  rewrite map_nth. unfold F. apply map_ext. intros j. f_equal.
  symmetry. rewrite column_take_rows.
  assert (Hrow : List.length (nth i (rows X) []) = ncols X).
  { rewrite Forall_forall in HXrows. apply HXrows, nth_In. lia. }
  apply inner_permuted.
  - unfold column. rewrite length_map. congruence.
  - rewrite Hrow. exact Hf.
Qed.

(** X18. Without noise ([noise <= 0]) the returned [y] is the linear model
    applied to the returned [X], with or without shuffle: there is an
    [n_features] by [n_targets] array of coefficients, the one returned
    (squeezed) when [coef] is set, such that every target is the inner product
    of its sample with its column of coefficients, plus [bias]. *)
Theorem make_regression_linear_model (a : regression_args) (st st' : state)
    X y c :
  run (make_regression a) st = (Ok (X, y, c), st') ->
  (noise a <= 0.0)%R ->
  exists G,
    well_formed G /\
    shape G = (Z.to_nat (n_features a), Z.to_nat (n_targets a)) /\
    nd_data y = concat (linear_targets X G (bias a)) /\
    (coef a = true -> c = Some (squeezed G)).
Proof.
  intros Hrun Hnoise. unfold make_regression, run in Hrun.
  cbn [bind Monad_M] in Hrun.
  destruct (assemble a st) as [[[[X0 y0] gt0]|e] st1] eqn:Hpre; [|discriminate].
  pose proof (assemble_returned a st st1 _ Hpre) as Hpost.
  pose proof (assemble_linear a st st1 _ _ _ Hpre Hnoise) as Hlin.
  unfold assembled_post, shape in Hpost. cbn [fst snd] in Hpost, Hrun.
  destruct Hpost as (_ & _ & _ & HXwf & HXs & _ & Hys & Hgwf & Hgs & _).
  injection HXs as HXr HXc. injection Hys as Hyr _. injection Hgs as Hgr Hgc.
  destruct (shuffle a).
  - pose proof (shuffle_step_run (n_samples a) (n_features a) X0 y0 gt0 st1
                  HXwf Hgwf HXr Hyr HXc Hgr) as Hstep.
    cbv zeta in Hstep. destruct Hstep as (Hr & Hf & [st2 Hstep] & _).
    unfold run in Hstep. rewrite Hstep in Hrun. cbn [fst snd] in Hrun.
    set (r := fst (np_permutation (world st1) (Z.to_nat (n_samples a)))) in *.
    set (f := fst (np_permutation _ (Z.to_nat (n_features a)))) in *.
    assert (Hlin' : rows (take_rows r y0)
                    = linear_targets (take_cols f (take_rows r X0))
                        (take_rows f gt0) (bias a)).
    { apply linear_targets_shuffled; try assumption.
      - destruct Hgwf as [Hglen _]. congruence.
      - rewrite HXr. exact Hr.
      - rewrite HXc. exact Hf. }
    pose proof (Forall_lt_permutation _ _ Hf) as Hflt.
    pose proof (Permutation_length Hf) as Hflen. rewrite length_seq in Hflen.
    exists (take_rows f gt0).
    split; [apply well_formed_take_rows; [assumption | rewrite Hgr; exact Hflt]|].
    split; [unfold shape; cbn [take_rows nrows ncols]; congruence|].
    unfold squeeze in Hrun. cbn [bind ret Monad_M emit] in Hrun.
    destruct (coef a); cbn [bind ret Monad_M emit] in Hrun;
      injection Hrun as <- <- <- _; cbn [squeezed nd_data];
      (split; [rewrite Hlin'; reflexivity|]); [reflexivity | discriminate].
  - exists gt0. split; [exact Hgwf|].
    split; [unfold shape; congruence|].
    unfold squeeze in Hrun. cbn [bind ret Monad_M emit fst snd] in Hrun.
    destruct (coef a); cbn [bind ret Monad_M emit] in Hrun;
      injection Hrun as <- <- <- _; cbn [squeezed nd_data];
      (split; [rewrite Hlin; reflexivity|]); [reflexivity | discriminate].
Qed.

End LinearModel.

(** ** NumPy's global generator is left alone without shuffle *)

Section Quiet.

Context {E : Engine}.

Lemma quiet_ret {A : Type} (a : A) : quiet (ret a).
Proof. intros st. reflexivity. Qed.

Lemma quiet_raise {A : Type} (e : exn) : quiet (raise (A := A) e).
Proof. intros st. reflexivity. Qed.

Lemma quiet_lift {A : Type} (r : result A) : quiet (lift r).
Proof. intros st. reflexivity. Qed.

Lemma quiet_emit (n : node) : quiet (emit n).
Proof. intros st. reflexivity. Qed.

Lemma quiet_draw (r : nat) g : quiet (draw r g).
Proof.
  intros st. unfold run, draw. destruct (g (streams st r)). reflexivity.
Qed.

Lemma quiet_bind {A B : Type} (c : M A) (f : A -> M B) :
  quiet c -> (forall a, quiet (f a)) -> quiet (bind c f).
Proof.
  intros Hc Hf st. specialize (Hc st). unfold run in *. cbn [bind Monad_M].
  destruct (c st) as [[a|e] s]; cbn [snd] in *; [|exact Hc].
  rewrite <- Hc. apply (Hf a s).
Qed.

Ltac quiet_tac :=
  repeat first
    [ apply quiet_ret
    | apply quiet_raise
    | apply quiet_lift
    | apply quiet_emit
    | apply quiet_draw
    | match goal with
      | |- quiet (bind _ _) => apply quiet_bind; [|intros ?]
      | |- quiet (if ?b then _ else _) => destruct b
      | |- quiet (match ?o with Some _ => _ | None => _ end) => destruct o
      end ].

Lemma quiet_standard_normal rs size ch dt :
  quiet (standard_normal rs size ch dt).
Proof.
  unfold standard_normal, dim, check_chunks. destruct rs; quiet_tac.
Qed.

Lemma quiet_normal rs scale size dt : quiet (normal rs scale size dt).
Proof. unfold normal. destruct rs; quiet_tac. Qed.

Lemma quiet_resolved {A : Type} (r : nat) (f : py_value -> M A) :
  quiet (f (PyDaskRandomState r)) ->
  quiet (bind (create_rs_generator (PyDaskRandomState r)) f).
Proof. intros H st. exact (H st). Qed.

Ltac quiet_operations :=
  unfold linalg_qr, rechunk, check_chunks, from_array, mul_broadcast,
    scalar_mul, add_scalar, add, dot, getitem_cols_upto, concatenate,
    squeeze, default_samples_per_part;
  repeat first
    [ apply quiet_standard_normal
    | apply quiet_normal
    | progress quiet_tac ].

Lemma quiet_make_low_rank_matrix (r : nat) ns nf er ts np nspp dt :
  quiet (make_low_rank_matrix ns nf er ts (PyDaskRandomState r) np nspp dt).
Proof.
  unfold make_low_rank_matrix. apply quiet_resolved. quiet_operations.
Qed.

Lemma quiet_make_regression (r : nat) (a : regression_args) :
  shuffle a = false ->
  quiet (make_regression (with_random_state (PyDaskRandomState r) a)).
Proof.
  intros Hs. destruct a. cbn [shuffle] in Hs. subst.
  unfold make_regression, assemble, with_random_state.
  cbn [n_samples n_features n_informative n_targets bias effective_rank
       tail_strength noise shuffle coef random_state n_parts
       n_samples_per_part order dtype].
  apply quiet_bind; [|intros ?; quiet_operations].
  apply quiet_resolved.
  repeat first
    [ apply quiet_make_low_rank_matrix
    | apply quiet_standard_normal
    | apply quiet_normal
    | progress quiet_operations ].
Qed.

(** X19. Without shuffle, a call of [make_regression] with an integer seed
    or with a Dask [RandomState] leaves NumPy's global generator and the
    entropy of the process as it found them, whether it returns or raises;
    so does every call of [make_low_rank_matrix] with such a random state. *)
Theorem global_generator_untouched (v : py_value) (st : state) :
  (exists z, v = PyInt z) \/ (exists r, v = PyDaskRandomState r) ->
  (forall ns nf er ts np nspp dt,
      world (snd (run (make_low_rank_matrix ns nf er ts v np nspp dt) st))
      = world st) /\
  (forall a,
      shuffle a = false ->
      world (snd (run (make_regression (with_random_state v a)) st))
      = world st).
Proof.
  intros [[z ->]|[r ->]]; split.
  - intros. destruct (seed_ok_dec (PyInt z)) as [Hok|Hno].
    + rewrite run_make_low_rank_matrix_seeded by exact Hok.
      exact (quiet_make_low_rank_matrix (next_ref st) ns nf er ts np nspp dt
               (State (upd (streams st) (next_ref st) (rs_seeded z))
                  (S (next_ref st)) (world st) (graph st))).
    + rewrite run_make_low_rank_matrix_seed_refused by exact Hno.
      reflexivity.
  - intros a Hs. destruct (seed_ok_dec (PyInt z)) as [Hok|Hno].
    + rewrite (run_make_regression_seeded (with_random_state (PyInt z) a) z st
                 eq_refl Hok).
      exact (quiet_make_regression (next_ref st) a Hs
               (State (upd (streams st) (next_ref st) (rs_seeded z))
                  (S (next_ref st)) (world st) (graph st))).
    + rewrite run_make_regression_seed_refused by exact Hno. reflexivity.
  - intros. apply (quiet_make_low_rank_matrix r).
  - intros a Hs. apply (quiet_make_regression r a Hs).
Qed.

End Quiet.

(** ** Further runs on the concrete engine *)

Lemma create_rs_generator_idempotent_witness :
  exists st',
    run (E := Counter.engine) (create_rs_generator (PyDaskRandomState 0)) st'
    = (Ok (PyDaskRandomState 0), st') /\
    graph st' = graph Counter.initial /\
    (forall r, r <> next_ref Counter.initial ->
               streams st' r = streams Counter.initial r).
Proof.
  eexists.
  apply (create_rs_generator_idempotent (E := Counter.engine)
           (PyInt 7) _ Counter.initial _).
  reflexivity.
Defined.

Lemma zero_parts_raise_witness :
  (forall ns nf er ts nspp dt,
      exists st',
        run (E := Counter.engine)
          (make_low_rank_matrix ns nf er ts (PyInt 0) 0 nspp dt)
          Counter.initial
        = (Raise ZeroDivisionError, st') /\
        graph st' = graph Counter.initial) /\
  (forall a,
      n_parts a = 0 -> n_samples_per_part a = None ->
      exists st',
        run (E := Counter.engine)
          (make_regression (with_random_state (PyInt 0) a)) Counter.initial
        = (Raise ZeroDivisionError, st') /\
        graph st' = graph Counter.initial).
Proof.
  apply (zero_parts_raise (E := Counter.engine) (PyInt 0) Counter.initial).
  - reflexivity.
  - cbn. unfold seed_max. lia.
Defined.

Lemma make_regression_n_parts_unused_witness :
  run (E := Counter.engine)
    (make_regression
       (with_n_parts 7
          (RegressionArgs 4 3 2 1 0%R None 0.5%R 0%R false true (PyInt 0) 1
             (Some 2) "F" "float32")))
    Counter.initial
  = run (E := Counter.engine)
      (make_regression
         (RegressionArgs 4 3 2 1 0%R None 0.5%R 0%R false true (PyInt 0) 1
            (Some 2) "F" "float32"))
      Counter.initial.
Proof.
  apply (make_regression_n_parts_unused (E := Counter.engine)
           (RegressionArgs 4 3 2 1 0%R None 0.5%R 0%R false true (PyInt 0) 1
              (Some 2) "F" "float32") 7 2 Counter.initial);
    reflexivity.
Defined.




Lemma make_regression_y_shape_witness :
  exists X y c st',
    run (E := Counter.engine) (make_regression (small_args 3 2 1 1 false))
      Counter.initial = (Ok (X, y, c), st') /\
    nd_shape y = [3%nat].
Proof.
  eassert (Hrun : run (E := Counter.engine)
                    (make_regression (small_args 3 2 1 1 false))
                    Counter.initial = (Ok (_, _, _), _)).
  { evaluate_regression. reflexivity. }
  do 4 eexists. split; [exact Hrun|].
  apply (make_regression_y_shape (E := Counter.engine)
           (small_args 3 2 1 1 false) _ _ _ _ _ Hrun).
  cbn. lia.
Defined.

Lemma make_regression_reproducible_witness :
  fst (run (E := Counter.engine) (make_regression (small_args 3 2 1 1 false))
         Counter.initial)
  = fst (run (E := Counter.engine) (make_regression (small_args 3 2 1 1 false))
           (State (E := Counter.engine) (fun _ => 5) 4%nat 9%nat [NDot])).
Proof.
  apply (make_regression_reproducible (E := Counter.engine)
           (small_args 3 2 1 1 false) 0); reflexivity.
Defined.

Lemma make_regression_linear_model_witness :
  exists X y c st',
    run (E := Counter.engine) (make_regression (small_args 3 2 1 1 true))
      Counter.initial = (Ok (X, y, c), st') /\
    exists G,
      well_formed G /\
      shape G = (Z.to_nat 2, Z.to_nat 1) /\
      nd_data y = concat (linear_targets X G 0.0) /\
      (true = true -> c = Some (squeezed G)).
Proof.
  eassert (Hrun : run (E := Counter.engine)
                    (make_regression (small_args 3 2 1 1 true))
                    Counter.initial = (Ok (_, _, _), _)).
  { evaluate_regression. reflexivity. }
  do 4 eexists. split; [exact Hrun|].
  apply (make_regression_linear_model (E := Counter.engine)
           (small_args 3 2 1 1 true) _ _ _ _ _ Hrun).
  cbn [noise small_args]. lra.
Defined.

Lemma global_generator_untouched_witness :
  (forall ns nf er ts np nspp dt,
      world (snd (run (E := Counter.engine)
                    (make_low_rank_matrix ns nf er ts (PyInt 0) np nspp dt)
                    Counter.initial))
      = world Counter.initial) /\
  (forall a,
      shuffle a = false ->
      world (snd (run (E := Counter.engine)
                    (make_regression (with_random_state (PyInt 0) a))
                    Counter.initial))
      = world Counter.initial).
Proof.
  apply (global_generator_untouched (E := Counter.engine) (PyInt 0)
           Counter.initial).
  left. exists 0. reflexivity.
Defined.
